(** * Lovelace: scheduled-event roles

    A shallow embedding of the scheduled-events service
    (src/lib/ScheduledEventService.ts and its sibling that annotates the
    returned event with [customRoleId]) and of the start-up listener
    (src/listeners/event-roles/eventInit.ts).

    The code is asynchronous but strictly sequential: every external call is
    awaited before the next statement runs.  An async method is therefore a
    state transformer over the world it talks to, returning either a value
    or a thrown error. *)

From Stdlib Require Import ZArith Lia.
From stdpp Require Import gmap strings list pretty.

(** ** Data model *)

Record Guild := { guildName : string }.

Record RecurrenceRule := { frequency : Z }.

(** A role of the guild ([role.id], [role.name] in the source). *)
Module Role.
Record t := {
  id : string;
  name : string;
  mentionable : bool;
  reason : string;
  permissions : list string
}.
End Role.

(** A guild member: the user it belongs to and [member.roles.cache]. *)
Record GuildMember := {
  memberUser : string;
  rolesCache : list Role.t
}.

(** An entry of the collection [event.fetchSubscribers({ withMember: true })]
    resolves to. *)
Record Subscriber := {
  user : string;
  member : option GuildMember
}.

(** discord.js's [GuildScheduledEvent], with the fields the service reads.
    [scheduledStartTimestamp] is a count of milliseconds since the epoch
    (discord.js obtains it with [Date.parse], so it is a time value of a
    valid [Date]) or [null]; [customRoleId] is the property the embedding
    variant of the service adds to the object. *)
Record GuildScheduledEvent := {
  id : string;
  name : string;
  guild : option Guild;
  scheduledStartTimestamp : option Z;
  recurrenceRule : option RecurrenceRule;
  customRoleId : option string;
  subscribers : list (string * Subscriber)
}.

(** [scheduledEvent.customRoleId = roleId].  The source sets the property
    on the object it was given and returns that object; the embedding
    returns the updated value. *)
Definition annotate (roleId : string) (e : GuildScheduledEvent)
  : GuildScheduledEvent :=
  {| id := id e; name := name e; guild := guild e;
     scheduledStartTimestamp := scheduledStartTimestamp e;
     recurrenceRule := recurrenceRule e;
     customRoleId := Some roleId;
     subscribers := subscribers e |}.

(** The row [database.findScheduledEvent] resolves to. *)
Record EventRecord := { eventId : string; roleId : string }.

(** The response of [database.createScheduledEvent]. *)
Record WriteResponse := { affectedRows : Z }.

(** Values that are thrown (promise rejections). *)
Inductive Error :=
| DbError
| ApiError.

(** Calls that leave the process: to the persistence store and to the
    Discord data source.  The world records them in order. *)
Inductive Call :=
| CallFindScheduledEvent (eventId : string)
| CallCreateScheduledEvent (eventId roleId : string)
| CallRolesCreate (name : string)
| CallRolesFetch (roleId : string)
| CallGuildsFetch
| CallScheduledEventsFetch
| CallFetchSubscribers (eventId : string)
| CallMemberFetch (userId : string).

(** What [client.logger] is given. *)
Inductive Message :=
| MissingGuild (name id : string)
| AlreadyInDatabase (name : string)
| RoleNotCreated (name : string)
| RoleCreated (roleName name id : string)
| NotWritten (name id : string)
| Written (name id : string)
| ProcessFailed
| BatchItemFailed (name id : string)
| Caught (e : Error)
| RoleFetchFailed (roleId name id : string) (e : Error)
| InitEventSkipped
| InitNoRoleId (name id : string)
| InitNoMember (guildName : string).

Inductive LogEntry :=
| LogInfo (m : Message)
| LogWarn (m : Message)
| LogError (m : Message).

(** ** The world

    [db] is the persistence store, keyed by event identifier; [roles],
    [members] and [events] are what the guild currently holds; [queue] and
    [drains] belong to [customRoleQueue]; [trace] and [logs] record what
    the process did. *)
Record World := {
  db : gmap string string;
  roles : list Role.t;
  members : gmap string (list Role.t);
  events : list (string * GuildScheduledEvent);
  queue : list (GuildScheduledEvent * string);
  drains : nat;
  trace : list Call;
  logs : list LogEntry
}.

(** What [guild.roles.create] does. *)
Inductive CreateOutcome :=
| Creates (roleId : string)
| CreatesNothing
| CreateRejects.

(** What [database.createScheduledEvent] does. *)
Inductive WriteOutcome :=
| WriteRows (n : Z)
| WriteRejects.

(** ** The environment

    Everything the service cannot decide: whether an external call rejects,
    which identifier Discord gives a new role, how many rows a write
    reports, the time zone of the host, and the helper
    [reasonableTruncate] of [./utils], whose source is not part of the
    embedded files.  The oracles are indexed by the number of external
    calls made so far, so that the same call may fail once and succeed
    later. *)
Record Env := {
  reasonableTruncate : string -> string;
  utcOffsetMinutes : Z -> Z;
  findRejects : nat -> string -> bool;
  createOutcome : nat -> string -> CreateOutcome;
  writeOutcome : nat -> string -> string -> WriteOutcome;
  rolesFetchRejects : nat -> string -> bool;
  guildsFetch : nat -> option Guild;
  eventsFetchRejects : nat -> bool;
  subscribersRejects : nat -> string -> bool;
  memberFetchRejects : nat -> string -> bool
}.

(** ** Sequential effects with exceptions *)

Inductive Result (A : Type) :=
| Ok (a : A)
| Thrown (e : Error).
Arguments Ok {A} a.
Arguments Thrown {A} e.

Definition M (A : Type) : Type := World -> Result A * World.

Definition ret {A} (a : A) : M A := fun w => (Ok a, w).

Definition throw {A} (e : Error) : M A := fun w => (Thrown e, w).

Definition bind {A B} (m : M A) (k : A -> M B) : M B :=
  fun w =>
    match m w with
    | (Ok a, w') => k a w'
    | (Thrown e, w') => (Thrown e, w')
    end.

(** [try { m } catch (error) { h error }]: the effects of [m] up to the
    throw stay. *)
Definition try_catch {A} (m : M A) (h : Error -> M A) : M A :=
  fun w =>
    match m w with
    | (Ok a, w') => (Ok a, w')
    | (Thrown e, w') => h e w'
    end.

Notation "'let*' x ':=' m 'in' k" := (bind m (fun x => k))
  (at level 10, x pattern, m at level 100, k at level 200).
Notation "m ';;;' k" := (bind m (fun _ => k))
  (at level 100, k at level 200, right associativity).

Definition get : M World := fun w => (Ok w, w).

Definition set_db (d : gmap string string) (w : World) : World :=
  {| db := d; roles := roles w; members := members w; events := events w;
     queue := queue w; drains := drains w; trace := trace w;
     logs := logs w |}.

Definition set_roles (r : list Role.t) (w : World) : World :=
  {| db := db w; roles := r; members := members w; events := events w;
     queue := queue w; drains := drains w; trace := trace w;
     logs := logs w |}.

Definition set_queue (q : list (GuildScheduledEvent * string)) (w : World)
  : World :=
  {| db := db w; roles := roles w; members := members w; events := events w;
     queue := q; drains := drains w; trace := trace w; logs := logs w |}.

Definition set_drains (n : nat) (w : World) : World :=
  {| db := db w; roles := roles w; members := members w; events := events w;
     queue := queue w; drains := n; trace := trace w; logs := logs w |}.

Definition set_trace (t : list Call) (w : World) : World :=
  {| db := db w; roles := roles w; members := members w; events := events w;
     queue := queue w; drains := drains w; trace := t; logs := logs w |}.

Definition set_logs (l : list LogEntry) (w : World) : World :=
  {| db := db w; roles := roles w; members := members w; events := events w;
     queue := queue w; drains := drains w; trace := trace w; logs := l |}.

Definition modify (f : World -> World) : M unit := fun w => (Ok tt, f w).

Definition log (l : LogEntry) : M unit :=
  modify (fun w => set_logs (logs w ++ [l]) w).

(** An external call: it is recorded, and its number is handed back for the
    environment to decide the outcome. *)
Definition call (c : Call) : M nat :=
  fun w => (Ok (length (trace w)), set_trace (trace w ++ [c]) w).

(** The world after a call went out, and after an entry was logged. *)
Definition called (c : Call) (w : World) : World :=
  set_trace (trace w ++ [c]) w.

Definition logged (l : LogEntry) (w : World) : World :=
  set_logs (logs w ++ [l]) w.

(** ** [@sapphire/timestamp]

    [new Timestamp('MMM-DD HH:mm').display(time)] reads the month, the day
    of the month, the hours and the minutes of [time] with the local-time
    getters of [Date] and prints the month's first three letters, and the
    three numbers padded to two digits, with the pattern's literal
    characters between them. *)
Module Timestamp.
Local Open Scope Z_scope.

(** [display] takes a number or a [Date]; both resolve to a time value. *)
Inductive Time :=
| Number (ms : Z)
| DateObject (ms : Z).

Definition resolveDate (time : Time) : Z :=
  match time with
  | Number ms => ms
  | DateObject ms => ms
  end.

Definition msPerMinute : Z := 60000.
Definition msPerDay : Z := 86400000.

(** Local time value at the instant [t]. *)
Definition localTime (offset : Z -> Z) (t : Z) : Z :=
  t + offset t * msPerMinute.

(** Day number of a time value, and the milliseconds within the day. *)
Definition day (lt : Z) : Z := lt / msPerDay.
Definition timeWithinDay (lt : Z) : Z := lt mod msPerDay.

(** Gregorian calendar.  A day number counted from the epoch falls on
    a day of a 400-year era that starts on 1 March; from it come the
    year of the era, the day of the year counted from 1 March and the
    month counted from March. *)
Definition dayOfEra (d : Z) : Z := (d + 719468) mod 146097.

Definition yearOfEra (doe : Z) : Z :=
  (doe - doe / 1460 + doe / 36524 - doe / 146096) / 365.

Definition dayOfMarchYear (doe : Z) : Z :=
  let yoe := yearOfEra doe in
  doe - (365 * yoe + yoe / 4 - yoe / 100).

Definition monthFromMarch (doe : Z) : Z :=
  (5 * dayOfMarchYear doe + 2) / 153.

Definition monthOfEraDay (doe : Z) : Z :=
  let mp := monthFromMarch doe in
  if mp <? 10 then mp + 2 else mp - 10.

Definition dateOfEraDay (doe : Z) : Z :=
  dayOfMarchYear doe - (153 * monthFromMarch doe + 2) / 5 + 1.

(** [getMonth()], from 0 for January. *)
Definition getMonth (lt : Z) : Z := monthOfEraDay (dayOfEra (day lt)).

(** [getDate()], from 1. *)
Definition getDate (lt : Z) : Z := dateOfEraDay (dayOfEra (day lt)).

Definition getHours (lt : Z) : Z := timeWithinDay lt / 3600000.

Definition getMinutes (lt : Z) : Z := (timeWithinDay lt / msPerMinute) mod 60.

Definition months : list string :=
  ["January"; "February"; "March"; "April"; "May"; "June"; "July";
   "August"; "September"; "October"; "November"; "December"]%string.

(** [String(n).padStart(2, '0')] for a number that is not negative. *)
Definition padStart2 (n : Z) : string :=
  let s := pretty (Z.to_N n) in
  if (String.length s <? 2)%nat then String.append "0" s else s.

Definition tokenMMM (lt : Z) : string :=
  String.substring 0 3 (nth (Z.to_nat (getMonth lt)) months ""%string).

(** The pattern ['MMM-DD HH:mm']. *)
Definition display (offset : Z -> Z) (time : Time) : string :=
  let lt := localTime offset (resolveDate time) in
  String.concat ""
    [tokenMMM lt; "-"; padStart2 (getDate lt); " ";
     padStart2 (getHours lt); ":"; padStart2 (getMinutes lt)]%string.
End Timestamp.

(** ** The persistence store

    [database] is not among the embedded files.  The spec has it as a
    key-value store keyed by event identifier, with the two calls below;
    either may reject. *)
Module database.
(** Modelled from the spec: [findScheduledEvent(eventId)] is not in the
    sources; it resolves to the record of the event or to nothing. *)
Definition findScheduledEvent (env : Env) (eventId : string)
  : M (option EventRecord) :=
  let* n := call (CallFindScheduledEvent eventId) in
  if findRejects env n eventId then throw DbError
  else
    let* w := get in
    ret (match db w !! eventId with
         | Some r => Some {| eventId := eventId; roleId := r |}
         | None => None
         end).

(** Modelled from the spec: [createScheduledEvent(eventId, roleId)] is not
    in the sources; it resolves to the number of rows it affected.  A write
    that affects a row stores the record; the store itself would let a
    later write to the same key replace it. *)
Definition createScheduledEvent (env : Env) (eventId roleId : string)
  : M WriteResponse :=
  let* n := call (CallCreateScheduledEvent eventId roleId) in
  match writeOutcome env n eventId roleId with
  | WriteRejects => throw DbError
  | WriteRows rows =>
      (if (0 <? rows)%Z
       then modify (fun w => set_db (<[eventId := roleId]> (db w)) w)
       else ret tt) ;;;
      ret {| affectedRows := rows |}
  end.
End database.

(** ** The assignment queue *)
Module customRoleQueue.
(** Modelled from the spec: [processQueues()] is not in the sources; it is
    a signal that the queue may drain, and returns at once. *)
Definition processQueues : M unit :=
  modify (fun w => set_drains (S (drains w)) w).

(** Modelled from the spec: [queueAssignment(event, user)] is not in the
    sources; it enqueues the intent and returns at once. *)
Definition queueAssignment (event : GuildScheduledEvent) (user : string)
  : M unit :=
  modify (fun w => set_queue (queue w ++ [(event, user)]) w).
End customRoleQueue.

(** ** The data source (discord.js) *)
Module discord.
(** [guild.roles.create({ name, mentionable: true, reason,
    permissions: [] })]. *)
Definition rolesCreate (env : Env) (name reason : string)
  : M (option Role.t) :=
  let* n := call (CallRolesCreate name) in
  match createOutcome env n name with
  | CreateRejects => throw ApiError
  | CreatesNothing => ret None
  | Creates rid =>
      let role := {| Role.id := rid; Role.name := name;
                     Role.mentionable := true; Role.reason := reason;
                     Role.permissions := [] |} in
      modify (fun w => set_roles (roles w ++ [role]) w) ;;;
      ret (Some role)
  end.

(** [guild.roles.fetch(roleId)]: the role, or [null] when the guild has
    no role of that identifier. *)
Definition rolesFetch (env : Env) (roleId : string) : M (option Role.t) :=
  let* n := call (CallRolesFetch roleId) in
  if rolesFetchRejects env n roleId then throw ApiError
  else
    let* w := get in
    ret (List.find (fun r => String.eqb (Role.id r) roleId) (roles w)).

(** [client.guilds.fetch(process.env.GUILD)]. *)
Definition guildsFetchCall (env : Env) : M Guild :=
  let* n := call CallGuildsFetch in
  match guildsFetch env n with
  | Some g => ret g
  | None => throw ApiError
  end.

(** [acmguild.scheduledEvents.fetch()]. *)
Definition scheduledEventsFetch (env : Env)
  : M (list (string * GuildScheduledEvent)) :=
  let* n := call CallScheduledEventsFetch in
  if eventsFetchRejects env n then throw ApiError
  else let* w := get in ret (events w).

(** [event.fetchSubscribers({ withMember: true })]. *)
Definition fetchSubscribers (env : Env) (event : GuildScheduledEvent)
  : M (list (string * Subscriber)) :=
  let* n := call (CallFetchSubscribers (id event)) in
  if subscribersRejects env n (id event) then throw ApiError
  else ret (subscribers event).

(** [member.fetch()]: the member as the guild holds it now; it rejects
    for a user who is no longer a member. *)
Definition memberFetch (env : Env) (m : GuildMember) : M GuildMember :=
  let* n := call (CallMemberFetch (memberUser m)) in
  if memberFetchRejects env n (memberUser m) then throw ApiError
  else
    let* w := get in
    match members w !! memberUser m with
    | Some rs => ret {| memberUser := memberUser m; rolesCache := rs |}
    | None => throw ApiError
    end.
End discord.

(** ** Role names *)

(** The [switch (frequency)] of [createCustomRole]. *)
Definition freqString (frequency : Z) : string :=
  match frequency with
  | 0%Z => "Yearly"
  | 1%Z => "Monthly"
  | 2%Z => "Weekly"
  | 3%Z => "Daily"
  | _ => ""
  end.

(** [scheduledEvent.scheduledStartTimestamp || new Date(0)]: [null] and [0]
    are falsy. *)
Definition startTime (scheduledEvent : GuildScheduledEvent) : Timestamp.Time :=
  match scheduledStartTimestamp scheduledEvent with
  | Some ms => if (ms =? 0)%Z then Timestamp.DateObject 0
               else Timestamp.Number ms
  | None => Timestamp.DateObject 0
  end.

(** The [name] that [createCustomRole] computes before it calls the API. *)
Definition roleName (env : Env) (scheduledEvent : GuildScheduledEvent)
  : string :=
  match recurrenceRule scheduledEvent with
  | None =>
      String.concat ""
        [reasonableTruncate env (name scheduledEvent); " [";
         Timestamp.display (utcOffsetMinutes env) (startTime scheduledEvent);
         "]"]%string
  | Some rule =>
      String.concat ""
        [reasonableTruncate env (name scheduledEvent); " [";
         freqString (frequency rule); "]"]%string
  end.

(** ** Private methods, the same text in both variants of the service *)

(** The [reason] given to the API. *)
Definition roleReason (scheduledEvent : GuildScheduledEvent) : string :=
  String.concat ""
    ["Role for the scheduled event "; name scheduledEvent; "."]%string.

(** [scheduledEvent.guild?.roles.create(...)]: without guild the call is
    not made and the result is [undefined]. *)
Definition createCustomRole (env : Env) (scheduledEvent : GuildScheduledEvent)
  : M (option Role.t) :=
  let name_ := roleName env scheduledEvent in
  match guild scheduledEvent with
  | None => ret None
  | Some _ => discord.rolesCreate env name_ (roleReason scheduledEvent)
  end.

Definition createEventDBEntry (env : Env)
    (scheduledEvent : GuildScheduledEvent) (roleId : string) : M bool :=
  let* response :=
    database.createScheduledEvent env (id scheduledEvent) roleId in
  if (0 <? affectedRows response)%Z
  then customRoleQueue.processQueues ;;; ret true
  else ret false.

(** ** [batchProcessEvents], the same loop around either [processEvent] *)
Section Batch.
Variable processEvent : GuildScheduledEvent -> M (option GuildScheduledEvent).

Fixpoint batchLoop (events : list (string * GuildScheduledEvent))
    (result : list (option GuildScheduledEvent))
  : M (list (option GuildScheduledEvent)) :=
  match events with
  | [] => ret result
  | (_id, event) :: rest =>
      let* result' :=
        try_catch
          (let* processedEvent := processEvent event in
           ret (result ++ [processedEvent]))
          (fun error =>
             log (LogWarn (BatchItemFailed (name event) (id event))) ;;;
             log (LogError (Caught error)) ;;;
             ret (result ++ [None])) in
      batchLoop rest result'
  end.

Definition batchProcessEventsWith
    (events : list (string * GuildScheduledEvent))
  : M (list (option GuildScheduledEvent)) :=
  batchLoop events [].

(** One turn of the loop: what is pushed, and the world it leaves. *)
Definition turn (event : GuildScheduledEvent) (w : World)
  : option GuildScheduledEvent * World :=
  match processEvent event w with
  | (Ok processedEvent, w') => (processedEvent, w')
  | (Thrown error, w') =>
      (None,
       logged (LogError (Caught error))
         (logged (LogWarn (BatchItemFailed (name event) (id event))) w'))
  end.

(** The world after the loop went over [events]. *)
Fixpoint after (events : list (string * GuildScheduledEvent)) (w : World)
  : World :=
  match events with
  | [] => w
  | (_, event) :: rest => after rest (snd (turn event w))
  end.

(** What the loop pushes for [events], in order. *)
Fixpoint pushed (events : list (string * GuildScheduledEvent)) (w : World)
  : list (option GuildScheduledEvent) :=
  match events with
  | [] => []
  | (_, event) :: rest =>
      fst (turn event w) :: pushed rest (snd (turn event w))
  end.
End Batch.

(** ** src/lib/ScheduledEventService.ts *)
Module ScheduleEventsService.
Definition processEvent (env : Env) (scheduledEvent : GuildScheduledEvent)
  : M (option GuildScheduledEvent) :=
  try_catch
    (match guild scheduledEvent with
     | None =>
         log (LogError (MissingGuild (name scheduledEvent)
                          (id scheduledEvent))) ;;;
         ret None
     | Some _ =>
         let* dbEvent :=
           database.findScheduledEvent env (id scheduledEvent) in
         match dbEvent with
         | Some _ =>
             log (LogInfo (AlreadyInDatabase (name scheduledEvent))) ;;;
             ret (Some scheduledEvent)
         | None =>
             let* role := createCustomRole env scheduledEvent in
             match role with
             | None =>
                 log (LogError (RoleNotCreated (name scheduledEvent))) ;;;
                 ret None
             | Some role =>
                 log (LogInfo (RoleCreated (Role.name role)
                                 (name scheduledEvent)
                                 (id scheduledEvent))) ;;;
                 let* newDbEntry :=
                   createEventDBEntry env scheduledEvent (Role.id role) in
                 if negb newDbEntry
                 then
                   log (LogError (NotWritten (name scheduledEvent)
                                    (id scheduledEvent))) ;;;
                   ret None
                 else
                   log (LogInfo (Written (name scheduledEvent)
                                   (id scheduledEvent))) ;;;
                   ret (Some scheduledEvent)
             end
         end
     end)
    (fun error =>
       log (LogWarn ProcessFailed) ;;;
       log (LogError (Caught error)) ;;;
       ret None).

Definition batchProcessEvents (env : Env)
  : list (string * GuildScheduledEvent)
    -> M (list (option GuildScheduledEvent)) :=
  batchProcessEventsWith (processEvent env).

(** [dbEvent?.roleId || null]: the empty string is falsy. *)
Definition getEventRoleId (env : Env) (eventId : string)
  : M (option string) :=
  let* dbEvent := database.findScheduledEvent env eventId in
  ret (match dbEvent with
       | Some r => if String.eqb (roleId r) "" then None
                   else Some (roleId r)
       | None => None
       end).

Definition getEventRole (env : Env) (scheduledEvent : GuildScheduledEvent)
  : M (option Role.t) :=
  match guild scheduledEvent with
  | None => ret None
  | Some _ =>
      let* roleId := getEventRoleId env (id scheduledEvent) in
      match roleId with
      | None => ret None
      | Some roleId =>
          try_catch
            (discord.rolesFetch env roleId)
            (fun error =>
               log (LogError (RoleFetchFailed roleId (name scheduledEvent)
                                (id scheduledEvent) error)) ;;;
               ret None)
      end
  end.
End ScheduleEventsService.

(** ** The variant of the service that embeds [customRoleId]

    The second copy of the service among the sources: [processEvent] sets
    [scheduledEvent.customRoleId] before it returns the event, and the
    class has no lookup methods. *)
Module EmbeddingService.
Definition processEvent (env : Env) (scheduledEvent : GuildScheduledEvent)
  : M (option GuildScheduledEvent) :=
  try_catch
    (match guild scheduledEvent with
     | None =>
         log (LogError (MissingGuild (name scheduledEvent)
                          (id scheduledEvent))) ;;;
         ret None
     | Some _ =>
         let* dbEntry :=
           database.findScheduledEvent env (id scheduledEvent) in
         match dbEntry with
         | Some dbEntry =>
             log (LogInfo (AlreadyInDatabase (name scheduledEvent))) ;;;
             ret (Some (annotate (roleId dbEntry) scheduledEvent))
         | None =>
             let* role := createCustomRole env scheduledEvent in
             match role with
             | None =>
                 log (LogError (RoleNotCreated (name scheduledEvent))) ;;;
                 ret None
             | Some role =>
                 log (LogInfo (RoleCreated (Role.name role)
                                 (name scheduledEvent)
                                 (id scheduledEvent))) ;;;
                 let* newDbEntry :=
                   createEventDBEntry env scheduledEvent (Role.id role) in
                 if negb newDbEntry
                 then
                   log (LogError (NotWritten (name scheduledEvent)
                                    (id scheduledEvent))) ;;;
                   ret None
                 else
                   log (LogInfo (Written (name scheduledEvent)
                                   (id scheduledEvent))) ;;;
                   ret (Some (annotate (Role.id role) scheduledEvent))
             end
         end
     end)
    (fun error =>
       log (LogWarn ProcessFailed) ;;;
       log (LogError (Caught error)) ;;;
       ret None).

Definition batchProcessEvents (env : Env)
  : list (string * GuildScheduledEvent)
    -> M (list (option GuildScheduledEvent)) :=
  batchProcessEventsWith (processEvent env).
End EmbeddingService.

(** ** src/listeners/event-roles/eventInit.ts *)
Module OnClientReady.
(** [member.roles.cache.find((role) => role.id === roleId)]. *)
Definition hasRole (member : GuildMember) (roleId : string)
  : option Role.t :=
  List.find (fun role => String.eqb (Role.id role) roleId)
    (rolesCache member).

(** The loop over the subscribers of one event. *)
Fixpoint subscriberLoop (env : Env) (acmguild : Guild)
    (event : GuildScheduledEvent) (roleId : string)
    (subscribers : list (string * Subscriber)) : M unit :=
  match subscribers with
  | [] => ret tt
  | (_userID, subscriber) :: rest =>
      match member subscriber with
      | None =>
          log (LogError (InitNoMember (guildName acmguild))) ;;;
          subscriberLoop env acmguild event roleId rest
      | Some member =>
          let* member := discord.memberFetch env member in
          match hasRole member roleId with
          | Some _ => ret tt
          | None =>
              customRoleQueue.queueAssignment event (memberUser member)
          end ;;;
          subscriberLoop env acmguild event roleId rest
      end
  end.

(** The loop over the processed events. *)
Fixpoint eventLoop (env : Env) (acmguild : Guild)
    (processedEvents : list (option GuildScheduledEvent)) : M unit :=
  match processedEvents with
  | [] => ret tt
  | None :: rest =>
      log (LogError InitEventSkipped) ;;;
      eventLoop env acmguild rest
  | Some event :: rest =>
      let* roleId := ScheduleEventsService.getEventRoleId env (id event) in
      match roleId with
      | None =>
          log (LogError (InitNoRoleId (name event) (id event))) ;;;
          eventLoop env acmguild rest
      | Some roleId =>
          let* subscribers := discord.fetchSubscribers env event in
          subscriberLoop env acmguild event roleId subscribers ;;;
          eventLoop env acmguild rest
      end
  end.

Definition run (env : Env) : M unit :=
  let* acmguild := discord.guildsFetchCall env in
  let* events := discord.scheduledEventsFetch env in
  let* processedEvents :=
    ScheduleEventsService.batchProcessEvents env events in
  eventLoop env acmguild processedEvents.
End OnClientReady.

(** ** Vocabulary of the properties *)

Definition bracketed (stem suffix : string) : string :=
  String.concat "" [stem; " ["; suffix; "]"]%string.






(** The [catch] block of [processEvent]. *)
Definition caught (e : Error) (w : World) : World :=
  logged (LogError (Caught e)) (logged (LogWarn ProcessFailed) w).

Definition newRole (rid nm rs : string) : Role.t :=
  {| Role.id := rid; Role.name := nm; Role.mentionable := true;
     Role.reason := rs; Role.permissions := [] |}.

(** The result and the final world of [processEvent] on every path; [mark]
    is what the variant does to the event it returns, given the role
    identifier. *)
Definition processOutcome
    (mark : string -> GuildScheduledEvent -> GuildScheduledEvent)
    (env : Env) (e : GuildScheduledEvent) (w : World)
  : Result (option GuildScheduledEvent) * World :=
  match guild e with
  | None => (Ok None, logged (LogError (MissingGuild (name e) (id e))) w)
  | Some _ =>
      let n := length (trace w) in
      let w1 := called (CallFindScheduledEvent (id e)) w in
      if findRejects env n (id e) then (Ok None, caught DbError w1)
      else
        match db w !! id e with
        | Some r =>
            (Ok (Some (mark r e)),
             logged (LogInfo (AlreadyInDatabase (name e))) w1)
        | None =>
            let nm := roleName env e in
            let w2 := called (CallRolesCreate nm) w1 in
            match createOutcome env (S n) nm with
            | CreateRejects => (Ok None, caught ApiError w2)
            | CreatesNothing =>
                (Ok None, logged (LogError (RoleNotCreated (name e))) w2)
            | Creates rid =>
                let role := newRole rid nm (roleReason e) in
                let w3 :=
                  called (CallCreateScheduledEvent (id e) rid)
                    (logged (LogInfo (RoleCreated nm (name e) (id e)))
                       (set_roles (roles w ++ [role]) w2)) in
                match writeOutcome env (S (S n)) (id e) rid with
                | WriteRejects => (Ok None, caught DbError w3)
                | WriteRows rows =>
                    if (0 <? rows)%Z
                    then
                      (Ok (Some (mark rid e)),
                       logged (LogInfo (Written (name e) (id e)))
                         (set_drains (S (drains w))
                            (set_db (<[id e := rid]> (db w)) w3)))
                    else
                      (Ok None,
                       logged (LogError (NotWritten (name e) (id e))) w3)
                end
            end
        end
  end.

(** The calls of one kind in a trace. *)
Definition isRolesCreate (c : Call) : bool :=
  match c with CallRolesCreate _ => true | _ => false end.

Definition isWrite (c : Call) : bool :=
  match c with CallCreateScheduledEvent _ _ => true | _ => false end.

Definition creations (w : World) : nat :=
  length (List.filter isRolesCreate (trace w)).

Definition writes (w : World) : nat :=
  length (List.filter isWrite (trace w)).


Definition withDb (d : gmap string string) (w : World) : World := set_db d w.

Definition withoutGuild (e : GuildScheduledEvent) : GuildScheduledEvent :=
  {| id := id e; name := name e; guild := None;
     scheduledStartTimestamp := scheduledStartTimestamp e;
     recurrenceRule := recurrenceRule e;
     customRoleId := customRoleId e;
     subscribers := subscribers e |}.

(** The queue is signalled only on the path where the write reported a
    row. *)
Definition SignalsOnlyAfterWrite
    (processEvent : Env -> GuildScheduledEvent
                    -> M (option GuildScheduledEvent)) : Prop :=
  forall env e w,
    let n := length (trace w) in
    let w' := snd (processEvent env e w) in
    drains w' = drains w
    \/ (drains w' = S (drains w)
        /\ exists rid rows,
             createOutcome env (S n) (roleName env e) = Creates rid
             /\ writeOutcome env (S (S n)) (id e) rid = WriteRows rows
             /\ (0 < rows)%Z
             /\ db w' !! id e = Some rid).

(** The output of the batch has one slot per input event, in the order of
    iteration: slot [k] holds what [processEvent] returned for the [k]-th
    event when called in the world the first [k] events left, which is
    null for a failure and the event otherwise; every event is processed,
    whatever happened to the ones before it. *)
Definition BatchIsolation
    (mark : string -> GuildScheduledEvent -> GuildScheduledEvent)
    (processEvent : Env -> GuildScheduledEvent
                    -> M (option GuildScheduledEvent))
    (batchProcessEvents : Env -> list (string * GuildScheduledEvent)
                          -> M (list (option GuildScheduledEvent))) : Prop :=
  forall env events w,
  exists result w',
    batchProcessEvents env events w = (Ok result, w')
    /\ length result = length events
    /\ forall k key event,
         events !! k = Some (key, event) ->
         let before := snd (batchProcessEvents env (take k events) w) in
         exists r,
           processEvent env event before
           = (Ok r, snd (batchProcessEvents env (take (S k) events) w))
           /\ result !! k = Some r
           /\ (r = None \/ exists rid, r = Some (mark rid event)).

(** [dbEvent?.roleId || null] on what the store holds. *)
Definition storedRoleId (w : World) (eventId : string) : option string :=
  match db w !! eventId with
  | Some r => if String.eqb r "" then None else Some r
  | None => None
  end.


Definition holds (roleId : string) (rs : list Role.t) : bool :=
  existsb (fun role => String.eqb (Role.id role) roleId) rs.







(** Two worlds with the same guild and store. *)
Definition sameGuild (w w' : World) : Prop :=
  db w' = db w /\ members w' = members w /\ roles w' = roles w
  /\ events w' = events w /\ drains w' = drains w.



(** The role is deleted in the guild, outside the service. *)
Definition deleteRole (roleId : string) (w : World) : World :=
  set_roles
    (List.filter (fun role => negb (String.eqb (Role.id role) roleId))
       (roles w)) w.

(** What the service and the pass can be asked to do. *)
Inductive Operation :=
| ProcessEvent (e : GuildScheduledEvent)
| ProcessEventEmbedding (e : GuildScheduledEvent)
| BatchProcessEvents (events : list (string * GuildScheduledEvent))
| BatchProcessEventsEmbedding (events : list (string * GuildScheduledEvent))
| GetEventRoleId (eventId : string)
| GetEventRole (e : GuildScheduledEvent)
| Run.

(** The world an operation leaves. *)
Definition perform (env : Env) (op : Operation) (w : World) : World :=
  match op with
  | ProcessEvent e => snd (ScheduleEventsService.processEvent env e w)
  | ProcessEventEmbedding e => snd (EmbeddingService.processEvent env e w)
  | BatchProcessEvents events =>
      snd (ScheduleEventsService.batchProcessEvents env events w)
  | BatchProcessEventsEmbedding events =>
      snd (EmbeddingService.batchProcessEvents env events w)
  | GetEventRoleId eventId =>
      snd (ScheduleEventsService.getEventRoleId env eventId w)
  | GetEventRole e => snd (ScheduleEventsService.getEventRole env e w)
  | Run => snd (OnClientReady.run env w)
  end.

(** Operations one after the other. *)
Definition performAll (env : Env) (ops : list Operation) (w : World) : World :=
  fold_left (fun w op => perform env op w) ops w.

(** The paths of one call of [processEvent], told by the external calls
    it made ([calls]) and by what became of the roles and of the store. *)
Definition OnPath (env : Env) (e : GuildScheduledEvent) (w w' : World)
    (calls : list Call) : Prop :=
  let find := CallFindScheduledEvent (id e) in
  let create := CallRolesCreate (roleName env e) in
  (calls = [] /\ guild e = None /\ roles w' = roles w /\ db w' = db w
   /\ drains w' = drains w)
  \/ (calls = [find] /\ roles w' = roles w /\ db w' = db w
      /\ drains w' = drains w)
  \/ (calls = [find; create] /\ db w !! id e = None /\ roles w' = roles w
      /\ db w' = db w /\ drains w' = drains w)
  \/ (exists rid,
        calls = [find; create; CallCreateScheduledEvent (id e) rid]
        /\ db w !! id e = None
        /\ roles w' = roles w ++ [newRole rid (roleName env e) (roleReason e)]
        /\ ((db w' = db w /\ drains w' = drains w)
            \/ (db w' = <[id e := rid]> (db w)
                /\ drains w' = S (drains w)))).

(** Every record of the store names a role of the guild. *)
Definition RecordsLinked (w : World) : Prop :=
  forall k r,
    db w !! k = Some r -> exists role, role ∈ roles w /\ Role.id role = r.

(** A role as [createCustomRole] asks for it, for one of [events]. *)
Definition ByPolicy (env : Env) (events : list (string * GuildScheduledEvent))
    (role : Role.t) : Prop :=
  Role.mentionable role = true
  /\ Role.permissions role = []
  /\ exists key event,
       (key, event) ∈ events
       /\ Role.name role = roleName env event
       /\ Role.reason role = roleReason event.

(** The user of the member a subscriber carries, if it carries one. *)
Definition memberUserOption (entry : string * Subscriber) : option string :=
  match member (snd entry) with
  | Some m => Some (memberUser m)
  | None => None
  end.

(** The member of the guild cannot be fetched for [u]: the call always
    rejects, or [u] is no member. *)
Definition Unfetchable (env : Env) (w : World) (u : string) : Prop :=
  (forall n, memberFetchRejects env n u = true) \/ members w !! u = None.

(** An intent the guild owes: [event] is one of [events], the store names
    its role, and [u] is the user of a subscriber's member for whom the
    guild does not hold that role. *)
Definition Owed (w : World) (events : list (string * GuildScheduledEvent))
    (intent : GuildScheduledEvent * string) : Prop :=
  (exists key, (key, fst intent) ∈ events)
  /\ exists roleId entry m rs,
       storedRoleId w (id (fst intent)) = Some roleId
       /\ entry ∈ subscribers (fst intent)
       /\ member (snd entry) = Some m
       /\ memberUser m = snd intent
       /\ members w !! snd intent = Some rs
       /\ holds roleId rs = false.

(** [Owed], for the loop over the output of the batch: the event is in a
    slot of [processed]. *)
Definition OwedTo (w : World) (processed : list (option GuildScheduledEvent))
    (intent : GuildScheduledEvent * string) : Prop :=
  Some (fst intent) ∈ processed
  /\ exists roleId entry m rs,
       storedRoleId w (id (fst intent)) = Some roleId
       /\ entry ∈ subscribers (fst intent)
       /\ member (snd entry) = Some m
       /\ memberUser m = snd intent
       /\ members w !! snd intent = Some rs
       /\ holds roleId rs = false.

(** ** Sample data *)

(** A stand-in for [reasonableTruncate]: names of at most eighty characters
    are kept. *)
Definition keepShort (s : string) : string :=
  if (String.length s <=? 80)%nat then s
  else String.append (String.substring 0 77 s) "...".

(** A host in UTC where nothing rejects: the n-th call that creates a role
    gives it the identifier ["role-n"], and a write reports one row. *)
Definition quietEnv : Env :=
  {| reasonableTruncate := keepShort;
     utcOffsetMinutes := fun _ => 0%Z;
     findRejects := fun _ _ => false;
     createOutcome := fun n _ => Creates (String.append "role-" (pretty n));
     writeOutcome := fun _ _ _ => WriteRows 1;
     rolesFetchRejects := fun _ _ => false;
     guildsFetch := fun _ => Some {| guildName := "ACM" |};
     eventsFetchRejects := fun _ => false;
     subscribersRejects := fun _ _ => false;
     memberFetchRejects := fun _ _ => false |}.

Definition emptyWorld : World :=
  {| db := ∅; roles := []; members := ∅; events := []; queue := [];
     drains := 0; trace := []; logs := [] |}.

Definition acm : Guild := {| guildName := "ACM" |}.

Definition standup (f : Z) : GuildScheduledEvent :=
  {| id := "e1"; name := "Standup"; guild := Some acm;
     scheduledStartTimestamp := Some 1741024800000%Z;
     recurrenceRule := Some {| frequency := f |};
     customRoleId := None; subscribers := [] |}.

Definition boardGameNight (start : option Z) : GuildScheduledEvent :=
  {| id := "e2"; name := "Board Game Night"; guild := Some acm;
     scheduledStartTimestamp := start;
     recurrenceRule := None;
     customRoleId := None; subscribers := [] |}.

(** A world whose store links the event ["e2"] to the role ["role-1"]. *)
Definition recordedWorld : World :=
  withDb (<["e2" := "role-1"]> ∅) emptyWorld.

(** An environment whose store reports no row for the write that is the
    third external call, and one row afterwards. *)
Definition zeroRowsOnce : Env :=
  {| reasonableTruncate := keepShort;
     utcOffsetMinutes := fun _ => 0%Z;
     findRejects := fun _ _ => false;
     createOutcome := fun n _ => Creates (String.append "role-" (pretty n));
     writeOutcome := fun n _ _ => if (n =? 2)%nat then WriteRows 0
                                  else WriteRows 1;
     rolesFetchRejects := fun _ _ => false;
     guildsFetch := fun _ => Some acm;
     eventsFetchRejects := fun _ => false;
     subscribersRejects := fun _ _ => false;
     memberFetchRejects := fun _ _ => false |}.

(** An environment in which the role-creation call rejects. *)
Definition creationDown : Env :=
  {| reasonableTruncate := keepShort;
     utcOffsetMinutes := fun _ => 0%Z;
     findRejects := fun _ _ => false;
     createOutcome := fun _ _ => CreateRejects;
     writeOutcome := fun _ _ _ => WriteRows 1;
     rolesFetchRejects := fun _ _ => false;
     guildsFetch := fun _ => Some acm;
     eventsFetchRejects := fun _ => false;
     subscribersRejects := fun _ _ => false;
     memberFetchRejects := fun _ _ => false |}.

(** Three events, the second of which has no guild. *)
Definition threeEvents : list (string * GuildScheduledEvent) :=
  [("e1", standup 2);
   ("e2", withoutGuild (boardGameNight None));
   ("e3", {| id := "e3"; name := "Game Jam"; guild := Some acm;
             scheduledStartTimestamp := Some 1709251140000%Z;
             recurrenceRule := None; customRoleId := None;
             subscribers := [] |})]%string.


(** An environment in which Discord rejects every call. *)
Definition discordDown : Env :=
  {| reasonableTruncate := keepShort;
     utcOffsetMinutes := fun _ => 0%Z;
     findRejects := fun _ _ => false;
     createOutcome := fun _ _ => CreateRejects;
     writeOutcome := fun _ _ _ => WriteRows 1;
     rolesFetchRejects := fun _ _ => true;
     guildsFetch := fun _ => None;
     eventsFetchRejects := fun _ => true;
     subscribersRejects := fun _ _ => true;
     memberFetchRejects := fun _ _ => true |}.

(** A guild with one recorded event and its role; of the three
    subscribers the guild holds the role for ["u1"] only, although the
    stale member of ["u2"] shows it and that of ["u1"] does not. *)
Definition gameNightRole : Role.t :=
  newRole "role-1" "Board Game Night [Jan-01 00:00]"
    "Role for the scheduled event Board Game Night.".

Definition gameNight : GuildScheduledEvent :=
  {| id := "e2"; name := "Board Game Night"; guild := Some acm;
     scheduledStartTimestamp := None; recurrenceRule := None;
     customRoleId := None;
     subscribers :=
       [("u1", {| user := "u1";
                  member := Some {| memberUser := "u1"; rolesCache := [] |} |});
        ("u2", {| user := "u2";
                  member := Some {| memberUser := "u2";
                                    rolesCache := [gameNightRole] |} |});
        ("u3", {| user := "u3";
                  member := Some {| memberUser := "u3";
                                    rolesCache := [] |} |})]%string |}.

Definition startupWorld : World :=
  {| db := <["e2" := "role-1"]> ∅;
     roles := [gameNightRole];
     members := <["u1" := [gameNightRole]]>
                  (<["u2" := []]> (<["u3" := []]> ∅));
     events := [("e2"%string, gameNight)];
     queue := []; drains := 0; trace := []; logs := [] |}.

(** Two events of the guild. *)
Definition twoEvents : list (string * GuildScheduledEvent) :=
  [("e1", standup 2); ("e2", boardGameNight None)]%string.

(** * Properties *)

(** ** How the external calls run *)

Lemma findScheduledEvent_run env k w :
  database.findScheduledEvent env k w =
  if findRejects env (length (trace w)) k
  then (Thrown DbError, called (CallFindScheduledEvent k) w)
  else (Ok (match db w !! k with
            | Some r => Some {| eventId := k; roleId := r |}
            | None => None
            end),
        called (CallFindScheduledEvent k) w).
Proof.
  unfold database.findScheduledEvent, bind, call; cbn.
  destruct (findRejects env (length (trace w)) k); reflexivity.
Qed.

Lemma rolesCreate_run env nm rs w :
  discord.rolesCreate env nm rs w =
  let w1 := called (CallRolesCreate nm) w in
  match createOutcome env (length (trace w)) nm with
  | CreateRejects => (Thrown ApiError, w1)
  | CreatesNothing => (Ok None, w1)
  | Creates rid =>
      let role := {| Role.id := rid; Role.name := nm;
                     Role.mentionable := true; Role.reason := rs;
                     Role.permissions := [] |} in
      (Ok (Some role), set_roles (roles w ++ [role]) w1)
  end.
Proof.
  unfold discord.rolesCreate, bind, call; cbn.
  destruct (createOutcome env (length (trace w)) nm); reflexivity.
Qed.

Lemma createScheduledEvent_run env k rid w :
  database.createScheduledEvent env k rid w =
  let w1 := called (CallCreateScheduledEvent k rid) w in
  match writeOutcome env (length (trace w)) k rid with
  | WriteRejects => (Thrown DbError, w1)
  | WriteRows n =>
      (Ok {| affectedRows := n |},
       if (0 <? n)%Z then set_db (<[k := rid]> (db w)) w1 else w1)
  end.
Proof.
  unfold database.createScheduledEvent, bind, call; cbn.
  destruct (writeOutcome env (length (trace w)) k rid) as [n|]; [|reflexivity].
  destruct (0 <? n)%Z; reflexivity.
Qed.

Lemma createEventDBEntry_run env e rid w :
  createEventDBEntry env e rid w =
  let w1 := called (CallCreateScheduledEvent (id e) rid) w in
  match writeOutcome env (length (trace w)) (id e) rid with
  | WriteRejects => (Thrown DbError, w1)
  | WriteRows n =>
      if (0 <? n)%Z
      then (Ok true,
            set_drains (S (drains w)) (set_db (<[id e := rid]> (db w)) w1))
      else (Ok false, w1)
  end.
Proof.
  unfold createEventDBEntry, bind. rewrite createScheduledEvent_run. cbn.
  destruct (writeOutcome env (length (trace w)) (id e) rid) as [n|];
    [|reflexivity].
  cbn. destruct (0 <? n)%Z; reflexivity.
Qed.

Lemma createCustomRole_run env e w :
  createCustomRole env e w =
  match guild e with
  | None => (Ok None, w)
  | Some _ => discord.rolesCreate env (roleName env e) (roleReason e) w
  end.
Proof. unfold createCustomRole. destruct (guild e); reflexivity. Qed.

(** A role that [createCustomRole] hands back carries the computed name,
    is mentionable and has no permissions; the call went out under that
    name. *)
Lemma createCustomRole_created env e w role w' :
  createCustomRole env e w = (Ok (Some role), w') ->
  Role.name role = roleName env e
  /\ Role.mentionable role = true
  /\ Role.permissions role = []
  /\ roles w' = roles w ++ [role]
  /\ trace w' = trace w ++ [CallRolesCreate (roleName env e)].
Proof.
  rewrite createCustomRole_run. destruct (guild e); [|discriminate].
  rewrite rolesCreate_run. cbn.
  destruct (createOutcome env (length (trace w)) (roleName env e));
    intros H; inversion H; subst; cbn; auto.
Qed.

(** ** Role names *)

Lemma roleName_recurring env e rule :
  recurrenceRule e = Some rule ->
  roleName env e =
  bracketed (reasonableTruncate env (name e)) (freqString (frequency rule)).
Proof. intros H. unfold roleName. rewrite H. reflexivity. Qed.


Lemma freqString_other f :
  f <> 0%Z -> f <> 1%Z -> f <> 2%Z -> f <> 3%Z -> freqString f = ""%string.
Proof.
  intros H0 H1 H2 H3.
  destruct f as [|p|p]; [congruence| |reflexivity].
  destruct p as [[q|q|]|[q|q|]|]; try reflexivity; congruence.
Qed.

(** C8. Recurring-event naming: the role created for an event with a
    recurrence rule is named truncate(eventName) + " [" + label + "]",
    where the label is Yearly, Monthly, Weekly or Daily for the frequencies
    0, 1, 2 and 3 and empty for every other frequency. *)
Theorem recurring_role_name env e rule w role w' :
  recurrenceRule e = Some rule ->
  createCustomRole env e w = (Ok (Some role), w') ->
  exists label : string,
    Role.name role =
      String.concat ""
        [reasonableTruncate env (name e); " ["; label; "]"]%string
    /\ (frequency rule = 0%Z -> label = "Yearly"%string)
    /\ (frequency rule = 1%Z -> label = "Monthly"%string)
    /\ (frequency rule = 2%Z -> label = "Weekly"%string)
    /\ (frequency rule = 3%Z -> label = "Daily"%string)
    /\ (frequency rule <> 0%Z -> frequency rule <> 1%Z ->
        frequency rule <> 2%Z -> frequency rule <> 3%Z ->
        label = ""%string).
Proof.
  intros Hrule Hrun.
  destruct (createCustomRole_created _ _ _ _ _ Hrun) as (Hname & _).
  exists (freqString (frequency rule)).
  split; [rewrite Hname; apply roleName_recurring, Hrule|].
  repeat split; try (intros ->; reflexivity).
  apply freqString_other.
Qed.

(** "Standup" recurring weekly is named "Standup [Weekly]", and with a
    frequency outside 0..3 it is named "Standup []". *)
Lemma recurring_role_name_witness :
  (exists role w',
     createCustomRole quietEnv (standup 2) emptyWorld = (Ok (Some role), w')
     /\ Role.name role = "Standup [Weekly]"%string)
  /\ (exists role w',
        createCustomRole quietEnv (standup 7) emptyWorld = (Ok (Some role), w')
        /\ Role.name role = "Standup []"%string).
Proof.
  split.
  - eexists _, _. split; [vm_compute; reflexivity|].
    destruct (recurring_role_name quietEnv (standup 2)
                {| frequency := 2 |} emptyWorld _ _ eq_refl eq_refl)
      as (label & Hname & _ & _ & Hweekly & _).
    rewrite (Hweekly eq_refl) in Hname. exact Hname.
  - eexists _, _. split; [vm_compute; reflexivity|].
    destruct (recurring_role_name quietEnv (standup 7)
                {| frequency := 7 |} emptyWorld _ _ eq_refl eq_refl)
      as (label & Hname & _ & _ & _ & _ & Hother).
    rewrite Hother in Hname; [exact Hname | cbn; lia ..].
Defined.

(** ** The shape of a displayed time *)











(** A leap day, the last minute of a year seen five hours west of
    Greenwich, and an instant before the epoch. *)
Example display_samples :
  Timestamp.display (fun _ => 0%Z) (Timestamp.Number 1709251140000)
    = "Feb-29 23:59"%string
  /\ Timestamp.display (fun _ => (-300)%Z) (Timestamp.Number 1735707540000)
    = "Dec-31 23:59"%string
  /\ Timestamp.display (fun _ => 0%Z) (Timestamp.Number (-1))
    = "Dec-31 23:59"%string.
Proof. vm_compute. repeat split; reflexivity. Qed.








(** ** What [processEvent] does, case by case *)

Lemma length_snoc {A} (l : list A) (x : A) : length (l ++ [x]) = S (length l).
Proof. rewrite length_app. cbn. lia. Qed.

Ltac world_simpl :=
  unfold caught, logged, called, newRole;
  cbn [trace logs roles db drains members events queue
       set_logs set_roles set_trace set_db set_drains set_queue
       Role.id Role.name fst snd].

(** Both variants follow the table; the proof walks the paths of the
    source in order. *)
Ltac walk_processEvent env e w :=
  unfold processOutcome, try_catch, bind;
  destruct (guild e) as [g|] eqn:Hg; [|reflexivity];
  rewrite findScheduledEvent_run;
  destruct (findRejects env (length (trace w)) (id e)); [reflexivity|];
  destruct (db w !! id e) as [r|]; [reflexivity|];
  rewrite createCustomRole_run, Hg, rolesCreate_run; cbv zeta;
  world_simpl; rewrite length_snoc;
  destruct (createOutcome env (S (length (trace w))) (roleName env e))
    as [rid| |]; [|reflexivity|reflexivity];
  unfold log, modify; rewrite createEventDBEntry_run; cbv zeta;
  world_simpl; rewrite !length_snoc;
  destruct (writeOutcome env (S (S (length (trace w)))) (id e) rid)
    as [rows|]; [|reflexivity];
  destruct (0 <? rows)%Z; reflexivity.

Lemma processEvent_outcome env e w :
  ScheduleEventsService.processEvent env e w
  = processOutcome (fun _ e => e) env e w.
Proof.
  unfold ScheduleEventsService.processEvent. walk_processEvent env e w.
Qed.

Lemma processEvent_embedding_outcome env e w :
  EmbeddingService.processEvent env e w = processOutcome annotate env e w.
Proof.
  unfold EmbeddingService.processEvent. walk_processEvent env e w.
Qed.

(** [processEvent] never throws. *)
Lemma processOutcome_ok mark env e w :
  exists r w', processOutcome mark env e w = (Ok r, w').
Proof.
  unfold processOutcome.
  repeat match goal with
         | |- context [match ?x with _ => _ end] => destruct x
         end; cbv zeta; eauto.
Qed.

Lemma creations_called c w :
  creations (called c w)
  = creations w + (if isRolesCreate c then 1 else 0).
Proof.
  unfold creations, called. cbn [trace set_trace].
  rewrite List.filter_app, length_app. cbn.
  destruct (isRolesCreate c); reflexivity.
Qed.

(** A record that is in the store stays, with its role identifier. *)
Lemma processOutcome_keeps_record mark env e w k r :
  db w !! k = Some r ->
  db (snd (processOutcome mark env e w)) !! k = Some r.
Proof.
  intros Hk. unfold processOutcome.
  destruct (guild e); [|exact Hk]. cbv zeta.
  destruct (findRejects env (length (trace w)) (id e)); [exact Hk|].
  destruct (db w !! id e) as [r0|] eqn:Hid; [exact Hk|].
  destruct (createOutcome env (S (length (trace w))) (roleName env e))
    as [rid| |]; [|exact Hk|exact Hk].
  destruct (writeOutcome env (S (S (length (trace w)))) (id e) rid)
    as [rows|]; [|exact Hk].
  destruct (0 <? rows)%Z; [|exact Hk].
  world_simpl. rewrite lookup_insert_ne; [exact Hk|].
  intros Heq. rewrite <- Heq, Hid in Hk. discriminate.
Qed.

(** With the record in the store no role is created and nothing is
    written, whatever the environment does. *)
Lemma processOutcome_recorded mark env e w r :
  db w !! id e = Some r ->
  let w' := snd (processOutcome mark env e w) in
  roles w' = roles w /\ db w' = db w /\ drains w' = drains w
  /\ queue w' = queue w
  /\ (trace w' = trace w
      \/ trace w' = trace w ++ [CallFindScheduledEvent (id e)]).
Proof.
  intros Hr. unfold processOutcome.
  destruct (guild e); [|cbn; auto 6]. cbv zeta.
  destruct (findRejects env (length (trace w)) (id e)); [cbn; auto 6|].
  rewrite Hr. cbn. auto 6.
Qed.




(** A success leaves the record of the returned role in the store. *)
Lemma processOutcome_success mark env e w e1 w1 :
  processOutcome mark env e w = (Ok (Some e1), w1) ->
  exists rid, e1 = mark rid e /\ db w1 !! id e = Some rid.
Proof.
  unfold processOutcome.
  destruct (guild e); [|discriminate]. cbv zeta.
  destruct (findRejects env (length (trace w)) (id e)); [discriminate|].
  destruct (db w !! id e) as [r|] eqn:Hid.
  { intros H; inversion H; subst. exists r. split; [reflexivity|exact Hid]. }
  destruct (createOutcome env (S (length (trace w))) (roleName env e))
    as [rid| |]; [|discriminate|discriminate].
  destruct (writeOutcome env (S (S (length (trace w)))) (id e) rid)
    as [rows|]; [|discriminate].
  destruct (0 <? rows)%Z; [|discriminate].
  intros H; inversion H; subst. exists rid. split; [reflexivity|].
  world_simpl. apply lookup_insert_eq.
Qed.

Lemma processOutcome_found mark env e g r w :
  guild e = Some g -> db w !! id e = Some r ->
  findRejects env (length (trace w)) (id e) = false ->
  processOutcome mark env e w
  = (Ok (Some (mark r e)),
     logged (LogInfo (AlreadyInDatabase (name e)))
       (called (CallFindScheduledEvent (id e)) w)).
Proof.
  intros Hg Hr Hf. unfold processOutcome. rewrite Hg. cbv zeta.
  rewrite Hf, Hr. reflexivity.
Qed.


(** ** Idempotent creation *)




(** ** Failures of the role creation and of the write *)

Lemma processOutcome_world mark mark' env e w :
  snd (processOutcome mark env e w) = snd (processOutcome mark' env e w).
Proof.
  unfold processOutcome.
  repeat match goal with
         | |- context [match ?x with _ => _ end] => destruct x
         end; reflexivity.
Qed.

Lemma processOutcome_signal mark :
  SignalsOnlyAfterWrite (processOutcome mark).
Proof.
  intros env e w n w'. subst n w'. unfold processOutcome.
  destruct (guild e); [|left; reflexivity]. cbv zeta.
  destruct (findRejects env (length (trace w)) (id e)); [left; reflexivity|].
  destruct (db w !! id e) as [r|]; [left; reflexivity|].
  destruct (createOutcome env (S (length (trace w))) (roleName env e))
    as [rid| |]; [|left; reflexivity|left; reflexivity].
  destruct (writeOutcome env (S (S (length (trace w)))) (id e) rid)
    as [rows|] eqn:Hw; [|left; reflexivity].
  destruct (Z.ltb_spec 0 rows) as [Hpos|Hzero]; [|left; reflexivity].
  right. split; [reflexivity|]. exists rid, rows.
  repeat split; [exact Hw | exact Hpos |].
  world_simpl. apply lookup_insert_eq.
Qed.

(** C3. Persistence-write failure: when the write of the record reports
    zero affected rows after the role was created, [processEvent] returns
    null, the role exists, the store holds no record of the event and the
    queue's [processQueues] was not called; the queue is signalled only
    when the write reported at least one row. *)
Theorem zero_rows_fails_without_signal :
  (forall env e g rid w,
     let n := length (trace w) in
     guild e = Some g ->
     findRejects env n (id e) = false ->
     db w !! id e = None ->
     createOutcome env (S n) (roleName env e) = Creates rid ->
     writeOutcome env (S (S n)) (id e) rid = WriteRows 0 ->
     exists w',
       ScheduleEventsService.processEvent env e w = (Ok None, w')
       /\ EmbeddingService.processEvent env e w = (Ok None, w')
       /\ drains w' = drains w
       /\ db w' = db w
       /\ roles w' = roles w ++ [newRole rid (roleName env e) (roleReason e)]
       /\ trace w' = trace w ++ [CallFindScheduledEvent (id e);
                                 CallRolesCreate (roleName env e);
                                 CallCreateScheduledEvent (id e) rid]
       /\ last (logs w') = Some (LogError (NotWritten (name e) (id e))))
  /\ SignalsOnlyAfterWrite ScheduleEventsService.processEvent
  /\ SignalsOnlyAfterWrite EmbeddingService.processEvent.
Proof.
  split; [|split].
  - intros env e g rid w n Hg Hf Hdb Hc Hw. subst n.
    eexists. rewrite processEvent_outcome, processEvent_embedding_outcome.
    unfold processOutcome. rewrite Hg. cbv zeta. rewrite Hf, Hdb, Hc, Hw.
    cbn [Z.ltb Z.compare].
    split; [reflexivity|]. split; [reflexivity|].
    world_simpl. rewrite last_snoc, <- !app_assoc. cbn [app].
    repeat split; reflexivity.
  - intros env e w. rewrite processEvent_outcome.
    apply processOutcome_signal.
  - intros env e w. rewrite processEvent_embedding_outcome.
    apply processOutcome_signal.
Qed.

(** With a store that reports no row for the first write, the call fails,
    one role exists and the queue was not signalled. *)
Lemma zero_rows_fails_without_signal_witness :
  exists w',
    ScheduleEventsService.processEvent zeroRowsOnce (boardGameNight None)
      emptyWorld = (Ok None, w')
    /\ drains w' = 0 /\ length (roles w') = 1 /\ db w' = ∅.
Proof.
  destruct zero_rows_fails_without_signal as (Hzero & _).
  destruct (Hzero zeroRowsOnce (boardGameNight None) acm "role-1"%string
              emptyWorld eq_refl eq_refl eq_refl eq_refl eq_refl)
    as (w' & Hrun & _ & Hdrains & Hdb & Hroles & _).
  exists w'. split; [exact Hrun|].
  rewrite Hdrains, Hdb, Hroles. repeat split; reflexivity.
Defined.

(** C6. Role-creation failure: for an event that is not recorded, when the
    role-creation call rejects or resolves to nothing, [processEvent]
    returns null and makes no write: the store, the roles and the queue
    are as before, and the external calls are the lookup and the creation
    attempt. *)
Theorem failed_creation_writes_nothing env e g w :
  let n := length (trace w) in
  guild e = Some g ->
  findRejects env n (id e) = false ->
  db w !! id e = None ->
  createOutcome env (S n) (roleName env e) = CreateRejects
  \/ createOutcome env (S n) (roleName env e) = CreatesNothing ->
  exists w',
    ScheduleEventsService.processEvent env e w = (Ok None, w')
    /\ EmbeddingService.processEvent env e w = (Ok None, w')
    /\ db w' = db w
    /\ writes w' = writes w
    /\ roles w' = roles w
    /\ drains w' = drains w
    /\ trace w' = trace w ++ [CallFindScheduledEvent (id e);
                              CallRolesCreate (roleName env e)]
    /\ (last (logs w') = Some (LogError (RoleNotCreated (name e)))
        \/ last (logs w') = Some (LogError (Caught ApiError))).
Proof.
  intros n Hg Hf Hdb Hc. subst n.
  rewrite processEvent_outcome, processEvent_embedding_outcome.
  unfold processOutcome. rewrite Hg. cbv zeta. rewrite Hf, Hdb.
  destruct Hc as [-> | ->]; eexists;
    (split; [reflexivity|]; split; [reflexivity|]);
    unfold writes; world_simpl; rewrite last_snoc;
    rewrite <- !app_assoc, !List.filter_app, !length_app; cbn;
    repeat split; try reflexivity; try lia; auto.
Qed.

(** When Discord rejects the creation, the call fails after two external
    calls and the store is still empty. *)
Lemma failed_creation_writes_nothing_witness :
  exists w',
    ScheduleEventsService.processEvent creationDown (boardGameNight None)
      emptyWorld = (Ok None, w')
    /\ db w' = ∅ /\ writes w' = 0 /\ length (trace w') = 2.
Proof.
  destruct (failed_creation_writes_nothing creationDown (boardGameNight None)
              acm emptyWorld eq_refl eq_refl eq_refl (or_introl eq_refl))
    as (w' & Hrun & _ & Hdb & Hwrites & _ & _ & Htrace & _).
  exists w'. split; [exact Hrun|].
  rewrite Hdb, Hwrites, Htrace. repeat split; reflexivity.
Defined.

(** ** The batch loop *)

Section BatchFacts.
Variable processEvent : GuildScheduledEvent -> M (option GuildScheduledEvent).

Local Abbreviation turn := (turn processEvent).
Local Abbreviation after := (after processEvent).
Local Abbreviation pushed := (pushed processEvent).

Lemma batchLoop_run events : forall result w,
  batchLoop processEvent events result w
  = (Ok (result ++ pushed events w), after events w).
Proof.
  induction events as [|[key event] rest IH]; intros result w.
  - cbn. unfold ret. rewrite app_nil_r. reflexivity.
  - cbn [batchLoop pushed after]. unfold bind at 1, try_catch, turn.
    unfold bind at 1.
    destruct (processEvent event w) as [[processed|error] w'].
    + cbn. rewrite IH, <- app_assoc. reflexivity.
    + cbn. rewrite IH, <- app_assoc. reflexivity.
Qed.

Lemma batchProcessEventsWith_run events w :
  batchProcessEventsWith processEvent events w
  = (Ok (pushed events w), after events w).
Proof. unfold batchProcessEventsWith. apply batchLoop_run. Qed.

Lemma pushed_length events : forall w,
  length (pushed events w) = length events.
Proof.
  induction events as [|[key event] rest IH]; intros w; cbn;
    [reflexivity | now rewrite IH].
Qed.

Lemma after_app xs ys w : after (xs ++ ys) w = after ys (after xs w).
Proof.
  revert w. induction xs as [|[key event] xs IH]; intros w; cbn;
    [reflexivity | apply IH].
Qed.

Lemma pushed_app xs ys w :
  pushed (xs ++ ys) w = pushed xs w ++ pushed ys (after xs w).
Proof.
  revert w. induction xs as [|[key event] xs IH]; intros w; cbn;
    [reflexivity | now rewrite IH].
Qed.

(** Position [k] of the output holds what the turn on the [k]-th event
    pushed, in the world the first [k] events left. *)
Lemma pushed_lookup events w k key event :
  events !! k = Some (key, event) ->
  pushed events w !! k = Some (fst (turn event (after (take k events) w)))
  /\ after (take (S k) events) w
     = snd (turn event (after (take k events) w)).
Proof.
  intros Hk.
  pose proof (take_drop_middle events k (key, event) Hk) as Hsplit.
  assert (Hlen : length (take k events) = k).
  { apply length_take_le. apply lookup_lt_Some in Hk. lia. }
  split.
  - rewrite <- Hsplit at 1. rewrite pushed_app.
    rewrite lookup_app_r; rewrite pushed_length, Hlen; [|lia].
    rewrite Nat.sub_diag. reflexivity.
  - rewrite (take_S_r events k (key, event) Hk), after_app. reflexivity.
Qed.
End BatchFacts.

Lemma processOutcome_result mark env e w :
  fst (processOutcome mark env e w) = Ok None
  \/ exists rid, fst (processOutcome mark env e w) = Ok (Some (mark rid e)).
Proof.
  unfold processOutcome.
  repeat match goal with
         | |- context [match ?x with _ => _ end] => destruct x
         end; cbv zeta; cbn [fst]; eauto.
Qed.

Lemma batch_isolation_outcome mark :
  BatchIsolation mark (processOutcome mark)
    (fun env => batchProcessEventsWith (processOutcome mark env)).
Proof.
  intros env events w.
  exists (pushed (processOutcome mark env) events w),
         (after (processOutcome mark env) events w).
  split; [apply batchProcessEventsWith_run|].
  split; [apply pushed_length|].
  intros k key event Hk before. subst before.
  rewrite !batchProcessEventsWith_run. cbn [snd].
  destruct (pushed_lookup (processOutcome mark env) events w k key event Hk)
    as (Hslot & Hafter).
  set (wk := after (processOutcome mark env) (take k events) w) in *.
  destruct (processOutcome_ok mark env event wk) as (r & wk' & Hrun).
  unfold turn in Hslot, Hafter. rewrite Hrun in Hslot, Hafter.
  cbn [fst snd] in Hslot, Hafter.
  exists r. rewrite Hafter. split; [exact Hrun|]. split; [exact Hslot|].
  destruct (processOutcome_result mark env event wk) as [H|(rid & H)];
    rewrite Hrun in H; cbn [fst] in H; inversion H; eauto.
Qed.

Lemma batchProcessEventsWith_ext p q events w :
  (forall e w, p e w = q e w) ->
  batchProcessEventsWith p events w = batchProcessEventsWith q events w.
Proof.
  intros Hpq. rewrite !batchProcessEventsWith_run.
  assert (Hturn : forall e w, turn p e w = turn q e w)
    by (intros; unfold turn; rewrite Hpq; reflexivity).
  revert w. induction events as [|[key event] rest IH]; intros w;
    [reflexivity|].
  cbn [pushed after]. rewrite Hturn.
  specialize (IH (snd (turn q event w))). inversion IH as [[Hp Ha]].
  rewrite Hp, Ha. reflexivity.
Qed.

Lemma batchProcessEvents_outcome env events w :
  ScheduleEventsService.batchProcessEvents env events w
  = batchProcessEventsWith (processOutcome (fun _ e => e) env) events w.
Proof.
  apply batchProcessEventsWith_ext. intros. apply processEvent_outcome.
Qed.

Lemma batchProcessEvents_embedding_outcome env events w :
  EmbeddingService.batchProcessEvents env events w
  = batchProcessEventsWith (processOutcome annotate env) events w.
Proof.
  apply batchProcessEventsWith_ext. intros.
  apply processEvent_embedding_outcome.
Qed.

(** C2. Batch isolation: [batchProcessEvents] returns one slot per input
    event, in the order of iteration, with null exactly where the event
    failed to process and the resolved event elsewhere; a failure never
    keeps the later events from being processed. *)
Theorem batch_isolation :
  BatchIsolation (fun _ e => e) ScheduleEventsService.processEvent
    ScheduleEventsService.batchProcessEvents
  /\ BatchIsolation annotate EmbeddingService.processEvent
       EmbeddingService.batchProcessEvents.
Proof.
  split; intros env events w.
  - destruct (batch_isolation_outcome (fun _ e => e) env events w)
      as (result & w' & Hrun & Hlen & Hslots).
    exists result, w'. rewrite batchProcessEvents_outcome.
    split; [exact Hrun|]. split; [exact Hlen|].
    intros k key event Hk. cbv zeta.
    rewrite !batchProcessEvents_outcome, processEvent_outcome.
    apply (Hslots k key event Hk).
  - destruct (batch_isolation_outcome annotate env events w)
      as (result & w' & Hrun & Hlen & Hslots).
    exists result, w'. rewrite batchProcessEvents_embedding_outcome.
    split; [exact Hrun|]. split; [exact Hlen|].
    intros k key event Hk. cbv zeta.
    rewrite !batchProcessEvents_embedding_outcome,
      processEvent_embedding_outcome.
    apply (Hslots k key event Hk).
Qed.

(** The batch over them has null in the second slot and the first and the
    third event in theirs. *)
Lemma batch_isolation_witness :
  exists result w',
    ScheduleEventsService.batchProcessEvents quietEnv threeEvents emptyWorld
    = (Ok result, w')
    /\ length result = 3
    /\ result !! 1 = Some None
    /\ (exists e, threeEvents !! 0 = Some ("e1"%string, e)
                  /\ result !! 0 = Some (Some e))
    /\ (exists e, threeEvents !! 2 = Some ("e3"%string, e)
                  /\ result !! 2 = Some (Some e)).
Proof.
  destruct batch_isolation as (Hlookup & _).
  destruct (Hlookup quietEnv threeEvents emptyWorld)
    as (result & w' & Hrun & Hlen & Hslots).
  exists result, w'. split; [exact Hrun|]. split; [exact Hlen|].
  split; [|split].
  - destruct (Hslots 1 _ _ eq_refl) as (r & Hr & Hslot & _).
    rewrite Hslot. f_equal.
    vm_compute in Hr. inversion Hr. reflexivity.
  - eexists. split; [reflexivity|].
    destruct (Hslots 0 _ _ eq_refl) as (r & Hr & Hslot & _).
    rewrite Hslot. f_equal.
    vm_compute in Hr. inversion Hr. reflexivity.
  - eexists. split; [reflexivity|].
    destruct (Hslots 2 _ _ eq_refl) as (r & Hr & Hslot & _).
    rewrite Hslot. f_equal.
    vm_compute in Hr. inversion Hr. reflexivity.
Defined.

(** ** The lookups *)

Lemma getEventRoleId_run env k w :
  ScheduleEventsService.getEventRoleId env k w =
  if findRejects env (length (trace w)) k
  then (Thrown DbError, called (CallFindScheduledEvent k) w)
  else (Ok (storedRoleId w k), called (CallFindScheduledEvent k) w).
Proof.
  unfold ScheduleEventsService.getEventRoleId, bind, storedRoleId.
  rewrite findScheduledEvent_run.
  destruct (findRejects env (length (trace w)) k); [reflexivity|].
  destruct (db w !! k); reflexivity.
Qed.

Lemma getEventRole_run env e w :
  ScheduleEventsService.getEventRole env e w =
  match guild e with
  | None => (Ok None, w)
  | Some _ =>
      let n := length (trace w) in
      let w1 := called (CallFindScheduledEvent (id e)) w in
      if findRejects env n (id e) then (Thrown DbError, w1)
      else
        match storedRoleId w (id e) with
        | None => (Ok None, w1)
        | Some rid =>
            let w2 := called (CallRolesFetch rid) w1 in
            if rolesFetchRejects env (S n) rid
            then (Ok None,
                  logged (LogError (RoleFetchFailed rid (name e) (id e)
                                      ApiError)) w2)
            else (Ok (List.find (fun r => String.eqb (Role.id r) rid)
                        (roles w)), w2)
        end
  end.
Proof.
  unfold ScheduleEventsService.getEventRole.
  destruct (guild e); [|reflexivity].
  unfold bind. rewrite getEventRoleId_run. cbv zeta.
  destruct (findRejects env (length (trace w)) (id e)); [reflexivity|].
  destruct (storedRoleId w (id e)) as [rid|]; [|reflexivity].
  unfold try_catch, discord.rolesFetch, bind, call. world_simpl.
  rewrite length_snoc.
  destruct (rolesFetchRejects env (S (length (trace w))) rid); reflexivity.
Qed.

(** ** Errors at the boundary *)




(** ** The start-up pass *)

Lemma memberFetch_run env m w :
  discord.memberFetch env m w =
  let w1 := called (CallMemberFetch (memberUser m)) w in
  if memberFetchRejects env (length (trace w)) (memberUser m)
  then (Thrown ApiError, w1)
  else match members w !! memberUser m with
       | Some rs => (Ok {| memberUser := memberUser m; rolesCache := rs |}, w1)
       | None => (Thrown ApiError, w1)
       end.
Proof.
  unfold discord.memberFetch, bind, call. cbv zeta.
  destruct (memberFetchRejects env (length (trace w)) (memberUser m));
    [reflexivity|].
  cbn. destruct (members w !! memberUser m); reflexivity.
Qed.


Lemma sameGuild_trans w1 w2 w3 :
  sameGuild w1 w2 -> sameGuild w2 w3 -> sameGuild w1 w3.
Proof.
  intros (A1 & A2 & A3 & A4 & A5) (B1 & B2 & B3 & B4 & B5).
  repeat split; congruence.
Qed.

Lemma find_holds roleId rs :
  List.find (fun role => String.eqb (Role.id role) roleId) rs = None
  <-> holds roleId rs = false.
Proof.
  unfold holds. induction rs as [|r rs IH]; cbn; [tauto|].
  destruct (String.eqb (Role.id r) roleId); cbn; [|exact IH].
  split; discriminate.
Qed.







(** [processEvent] leaves the members, the events and the queue alone. *)
Lemma processOutcome_keeps_guild mark env e w :
  let w' := snd (processOutcome mark env e w) in
  members w' = members w /\ events w' = events w /\ queue w' = queue w.
Proof.
  unfold processOutcome.
  repeat match goal with
         | |- context [match ?x with _ => _ end] => destruct x
         end; cbv zeta; cbn; auto.
Qed.

Lemma after_keeps_guild mark env evs : forall w,
  let w' := after (processOutcome mark env) evs w in
  members w' = members w /\ events w' = events w /\ queue w' = queue w.
Proof.
  induction evs as [|[key e] rest IH]; intros w; [cbn; auto|].
  cbn [after]. cbv zeta.
  destruct (processOutcome_ok mark env e w) as (r & w1 & Hrun).
  pose proof (processOutcome_keeps_guild mark env e w) as Hstep.
  unfold turn. rewrite Hrun in *. cbn [snd] in *.
  destruct Hstep as (A & B & C). destruct (IH w1) as (A' & B' & C').
  repeat split; congruence.
Qed.

(** The lookup variant hands back the events it was given. *)
Lemma pushed_events env evs : forall w event,
  Some event ∈ pushed (processOutcome (fun _ e => e) env) evs w ->
  exists key, (key, event) ∈ evs.
Proof.
  induction evs as [|[key e] rest IH]; intros w event Hin.
  - cbn in Hin. apply elem_of_nil in Hin. contradiction.
  - cbn [pushed] in Hin. apply elem_of_cons in Hin as [Hhead|Htail].
    + exists key. unfold turn in Hhead.
      destruct (processOutcome_ok (fun _ e => e) env e w) as (r & w1 & Hrun).
      destruct (processOutcome_result (fun _ e => e) env e w)
        as [Hr|(rid & Hr)]; rewrite Hrun in Hhead, Hr; cbn [fst] in *.
      * congruence.
      * assert (event = e) by congruence. subst. left.
    + destruct (IH _ _ Htail) as [key' Hin']. exists key'. right. exact Hin'.
Qed.




(** ** Record immutability *)

Lemma find_deleted roleId rs :
  List.find (fun role => String.eqb (Role.id role) roleId)
    (List.filter (fun role => negb (String.eqb (Role.id role) roleId)) rs)
  = None.
Proof.
  induction rs as [|r rs IH]; [reflexivity|]. cbn.
  destruct (String.eqb (Role.id r) roleId) eqn:E; cbn; [exact IH|].
  rewrite E. exact IH.
Qed.

Lemma after_keeps_record mark env evs k r : forall w,
  db w !! k = Some r ->
  db (after (processOutcome mark env) evs w) !! k = Some r.
Proof.
  induction evs as [|[key e] rest IH]; intros w Hk; [exact Hk|].
  cbn [after]. apply IH.
  pose proof (processOutcome_keeps_record mark env e w k r Hk) as Hstep.
  unfold turn.
  destruct (processOutcome_ok mark env e w) as (res & w1 & Hrun).
  rewrite Hrun in *. exact Hstep.
Qed.

Lemma subscriberLoop_db env acmguild event roleId subs : forall w,
  db (snd (OnClientReady.subscriberLoop env acmguild event roleId subs w))
  = db w.
Proof.
  induction subs as [|[uid s] rest IH]; intros w; [reflexivity|].
  cbn [OnClientReady.subscriberLoop].
  destruct (member s) as [m|].
  - unfold bind at 1. rewrite memberFetch_run. cbv zeta.
    destruct (memberFetchRejects env (length (trace w)) (memberUser m));
      [reflexivity|].
    destruct (members w !! memberUser m) as [rs|]; [|reflexivity].
    unfold bind at 1.
    destruct (OnClientReady.hasRole _ roleId).
    + unfold ret at 1. rewrite IH. reflexivity.
    + unfold customRoleQueue.queueAssignment, modify. rewrite IH.
      reflexivity.
  - unfold bind at 1, log, modify. rewrite IH. reflexivity.
Qed.

Lemma eventLoop_db env acmguild processed : forall w,
  db (snd (OnClientReady.eventLoop env acmguild processed w)) = db w.
Proof.
  induction processed as [|slot rest IH]; intros w; [reflexivity|].
  cbn [OnClientReady.eventLoop].
  destruct slot as [event|].
  - unfold bind at 1. rewrite getEventRoleId_run.
    destruct (findRejects env (length (trace w)) (id event)); [reflexivity|].
    destruct (storedRoleId w (id event)) as [roleId|].
    + unfold bind at 1, discord.fetchSubscribers, bind at 1, call.
      destruct (subscribersRejects env _ (id event)); [reflexivity|].
      unfold ret at 1. unfold bind at 1.
      match goal with
      | |- context [OnClientReady.subscriberLoop ?a ?b ?c ?d ?e ?f] =>
          pose proof (subscriberLoop_db a b c d e f) as Hsub;
          destruct (OnClientReady.subscriberLoop a b c d e f) as [[[]|err] w3]
      end; cbn [snd] in Hsub.
      * rewrite IH. exact Hsub.
      * exact Hsub.
    + unfold bind at 1, log, modify. rewrite IH. reflexivity.
  - unfold bind at 1, log, modify. rewrite IH. reflexivity.
Qed.

Lemma run_keeps_record env w k r :
  db w !! k = Some r -> db (snd (OnClientReady.run env w)) !! k = Some r.
Proof.
  intros Hk. unfold OnClientReady.run, discord.guildsFetchCall.
  unfold bind at 1, bind at 1, call.
  destruct (guildsFetch env (length (trace w))) as [g|]; [|exact Hk].
  unfold ret at 1. unfold bind at 1, discord.scheduledEventsFetch.
  unfold bind at 1, call. world_simpl.
  destruct (eventsFetchRejects env _); [exact Hk|].
  unfold bind at 1, get, ret at 1. cbn [events set_trace].
  unfold bind at 1.
  rewrite batchProcessEvents_outcome, batchProcessEventsWith_run.
  rewrite eventLoop_db. apply after_keeps_record. exact Hk.
Qed.

Lemma perform_keeps_record env op w k r :
  db w !! k = Some r -> db (perform env op w) !! k = Some r.
Proof.
  intros Hk. destruct op as [e|e|evs|evs|k'|e|]; cbn [perform].
  - rewrite processEvent_outcome. apply processOutcome_keeps_record, Hk.
  - rewrite processEvent_embedding_outcome.
    apply processOutcome_keeps_record, Hk.
  - rewrite batchProcessEvents_outcome, batchProcessEventsWith_run.
    apply after_keeps_record, Hk.
  - rewrite batchProcessEvents_embedding_outcome, batchProcessEventsWith_run.
    apply after_keeps_record, Hk.
  - rewrite getEventRoleId_run.
    destruct (findRejects env (length (trace w)) k'); exact Hk.
  - rewrite getEventRole_run. destruct (guild e); [|exact Hk]. cbv zeta.
    destruct (findRejects env (length (trace w)) (id e)); [exact Hk|].
    destruct (storedRoleId w (id e)) as [rid|]; [|exact Hk].
    destruct (rolesFetchRejects env (S (length (trace w))) rid); exact Hk.
  - apply run_keeps_record, Hk.
Qed.

Lemma processOutcome_recorded_creations mark env e w r :
  db w !! id e = Some r ->
  creations (snd (processOutcome mark env e w)) = creations w.
Proof.
  intros Hr.
  destruct (processOutcome_recorded mark env e w r Hr)
    as (_ & _ & _ & _ & Htrace).
  unfold creations. destruct Htrace as [-> | ->]; [reflexivity|].
  rewrite List.filter_app, length_app. cbn. lia.
Qed.

(** C7. Record immutability: a record that exists for an event identifier
    is still there, with the same role identifier, after any sequence of
    operations of the service and of the pass.  In particular, after the
    role was deleted in the guild, resolving the event creates no
    replacement role; when the lookup answers the event is found and
    returned as before, and [getEventRole] returns null. *)
Theorem record_is_immutable :
  (forall env ops w k r,
     db w !! k = Some r -> db (performAll env ops w) !! k = Some r)
  /\ (forall env e r w,
        db w !! id e = Some r ->
        let w0 := deleteRole r w in
        db w0 !! id e = Some r
        /\ List.find (fun role => String.eqb (Role.id role) r) (roles w0)
           = None
        /\ roles (perform env (ProcessEvent e) w0) = roles w0
        /\ roles (perform env (ProcessEventEmbedding e) w0) = roles w0
        /\ creations (perform env (ProcessEvent e) w0) = creations w0
        /\ creations (perform env (ProcessEventEmbedding e) w0)
           = creations w0
        /\ (forall g,
              guild e = Some g ->
              findRejects env (length (trace w0)) (id e) = false ->
              fst (ScheduleEventsService.processEvent env e w0) = Ok (Some e)
              /\ fst (EmbeddingService.processEvent env e w0)
                 = Ok (Some (annotate r e))
              /\ fst (ScheduleEventsService.getEventRole env e w0)
                 = Ok None)).
Proof.
  split.
  - intros env ops. induction ops as [|op ops IH]; intros w k r Hk;
      [exact Hk|].
    cbn [performAll fold_left]. apply IH, perform_keeps_record, Hk.
  - intros env e r w Hr w0.
    assert (Hr0 : db w0 !! id e = Some r) by exact Hr.
    split; [exact Hr0|]. split; [apply find_deleted|].
    cbn [perform].
    rewrite !processEvent_outcome, !processEvent_embedding_outcome.
    destruct (processOutcome_recorded (fun _ e => e) env e w0 r Hr0)
      as (Hroles & _).
    destruct (processOutcome_recorded annotate env e w0 r Hr0)
      as (Hroles' & _).
    rewrite !(processOutcome_recorded_creations _ env e w0 r Hr0).
    repeat (split; [assumption || reflexivity|]).
    intros g Hg Hf.
    rewrite !(processOutcome_found _ env e g r w0 Hg Hr0 Hf).
    split; [reflexivity|]. split; [reflexivity|].
    rewrite getEventRole_run, Hg. cbv zeta. rewrite Hf.
    unfold storedRoleId. rewrite Hr0.
    destruct (String.eqb r ""); [reflexivity|].
    destruct (rolesFetchRejects env (S (length (trace w0))) r);
      [reflexivity|].
    cbn [fst]. f_equal. apply find_deleted.
Qed.

(** The role of the recorded event is deleted: the event resolves as
    before, no role is created, the record still names ["role-1"], and the
    role lookup returns null. *)
Lemma record_is_immutable_witness :
  let w0 := deleteRole "role-1" startupWorld in
  roles w0 = []
  /\ fst (ScheduleEventsService.processEvent quietEnv gameNight w0)
     = Ok (Some gameNight)
  /\ roles (perform quietEnv (ProcessEvent gameNight) w0) = []
  /\ fst (ScheduleEventsService.getEventRole quietEnv gameNight w0) = Ok None
  /\ db (performAll quietEnv
           [ProcessEvent gameNight; Run; GetEventRole gameNight] w0)
       !! "e2" = Some "role-1"%string.
Proof.
  intros w0.
  destruct record_is_immutable as (Hkeeps & Hdeleted).
  destruct (Hdeleted quietEnv gameNight "role-1"%string startupWorld eq_refl)
    as (_ & _ & Hroles & _ & _ & _ & Hfound).
  destruct (Hfound acm eq_refl eq_refl) as (Hrun & _ & Hrole).
  split; [reflexivity|]. split; [exact Hrun|].
  split; [etransitivity; [exact Hroles | reflexivity]|].
  split; [exact Hrole|].
  apply Hkeeps. reflexivity.
Defined.

(** * Further properties of the service and of the pass *)

(** ** The protocol of one call *)

Lemma processOutcome_path mark env e w :
  let w' := snd (processOutcome mark env e w) in
  exists calls, trace w' = trace w ++ calls /\ OnPath env e w w' calls.
Proof.
  unfold processOutcome, OnPath.
  destruct (guild e) as [g|] eqn:Hg; cbv zeta.
  2:{ exists []. rewrite app_nil_r. split; [reflexivity|]. left. cbn. auto. }
  destruct (findRejects env (length (trace w)) (id e)).
  { eexists. split; [world_simpl; reflexivity|]. right; left. cbn. auto. }
  destruct (db w !! id e) as [r|] eqn:Hdb.
  { eexists. split; [world_simpl; reflexivity|]. right; left. cbn. auto. }
  destruct (createOutcome env (S (length (trace w))) (roleName env e))
    as [rid| |].
  - destruct (writeOutcome env (S (S (length (trace w)))) (id e) rid)
      as [rows|]; [destruct (0 <? rows)%Z|];
      (eexists; split;
       [world_simpl; rewrite <- !app_assoc; cbn [app]; reflexivity|]);
      right; right; right; exists rid; cbn; auto 10.
  - eexists. split; [world_simpl; rewrite <- !app_assoc; reflexivity|].
    right; right; left. cbn. auto.
  - eexists. split; [world_simpl; rewrite <- !app_assoc; reflexivity|].
    right; right; left. cbn. auto.
Qed.


(** ** The two variants of the service *)

Lemma processOutcome_results mark env e w :
  (fst (processOutcome mark env e w) = Ok None
   /\ fst (processOutcome (fun _ e => e) env e w) = Ok None)
  \/ exists rid,
       fst (processOutcome mark env e w) = Ok (Some (mark rid e))
       /\ fst (processOutcome (fun _ e => e) env e w) = Ok (Some e)
       /\ db (snd (processOutcome mark env e w)) !! id e = Some rid.
Proof.
  unfold processOutcome.
  destruct (guild e); [|left; split; reflexivity]. cbv zeta.
  destruct (findRejects env (length (trace w)) (id e));
    [left; split; reflexivity|].
  destruct (db w !! id e) as [r|] eqn:Hdb.
  { right. exists r. cbn. auto. }
  destruct (createOutcome env (S (length (trace w))) (roleName env e))
    as [rid| |]; [|left; split; reflexivity ..].
  destruct (writeOutcome env (S (S (length (trace w)))) (id e) rid)
    as [rows|]; [|left; split; reflexivity].
  destruct (0 <? rows)%Z; [|left; split; reflexivity].
  right. exists rid. cbn. split; [reflexivity|]. split; [reflexivity|].
  apply lookup_insert_eq.
Qed.

(** X2. The two variants of [processEvent] leave the same world and fail
    on the same inputs; where the lookup variant returns the event, the
    embedding variant returns it with [customRoleId] set to the role
    identifier the store now holds for it.  Their batches leave the same
    world too. *)
Theorem variants_agree env :
  (forall e w,
     snd (EmbeddingService.processEvent env e w)
     = snd (ScheduleEventsService.processEvent env e w)
     /\ ((fst (EmbeddingService.processEvent env e w) = Ok None
          /\ fst (ScheduleEventsService.processEvent env e w) = Ok None)
         \/ exists rid,
              fst (EmbeddingService.processEvent env e w)
              = Ok (Some (annotate rid e))
              /\ fst (ScheduleEventsService.processEvent env e w)
                 = Ok (Some e)
              /\ db (snd (ScheduleEventsService.processEvent env e w))
                   !! id e = Some rid))
  /\ (forall events w,
        snd (EmbeddingService.batchProcessEvents env events w)
        = snd (ScheduleEventsService.batchProcessEvents env events w)).
Proof.
  split.
  - intros e w. rewrite processEvent_outcome, processEvent_embedding_outcome.
    split; [apply processOutcome_world|].
    destruct (processOutcome_results annotate env e w)
      as [H|(rid & H1 & H2 & H3)]; [left; exact H|].
    right. exists rid. split; [exact H1|]. split; [exact H2|].
    rewrite (processOutcome_world (fun _ e => e) annotate). exact H3.
  - intros events w.
    rewrite batchProcessEvents_outcome, batchProcessEvents_embedding_outcome,
      !batchProcessEventsWith_run. cbn [snd].
    revert w. induction events as [|[key e] rest IH]; intros w;
      [reflexivity|].
    cbn [after].
    assert (Hturn : snd (turn (processOutcome annotate env) e w)
                    = snd (turn (processOutcome (fun _ e => e) env) e w)).
    { unfold turn.
      destruct (processOutcome_ok annotate env e w) as (r1 & w1 & H1).
      destruct (processOutcome_ok (fun _ e => e) env e w) as (r2 & w2 & H2).
      pose proof (processOutcome_world annotate (fun _ e => e) env e w) as Hw.
      rewrite H1, H2 in *. exact Hw. }
    rewrite Hturn. apply IH.
Qed.

(** ** What the service leaves alone *)

(** X3. [processEvent] and [batchProcessEvents] never enqueue an
    assignment and never touch the members or the events of the guild;
    the roles they find stay, in their order, at the head of the roles
    they leave. *)
Theorem service_never_enqueues env :
  (forall e w,
     let w' := snd (ScheduleEventsService.processEvent env e w) in
     queue w' = queue w /\ members w' = members w /\ events w' = events w
     /\ exists added, roles w' = roles w ++ added)
  /\ (forall evs w,
        let w' := snd (ScheduleEventsService.batchProcessEvents env evs w) in
        queue w' = queue w /\ members w' = members w /\ events w' = events w
        /\ exists added, roles w' = roles w ++ added).
Proof.
  assert (Hone : forall e w,
            let w' := snd (processOutcome (fun _ e => e) env e w) in
            queue w' = queue w /\ members w' = members w
            /\ events w' = events w
            /\ exists added, roles w' = roles w ++ added).
  { intros e w w'.
    destruct (processOutcome_keeps_guild (fun _ e => e) env e w)
      as (Hm & He & Hq).
    repeat (split; [assumption|]).
    destruct (processOutcome_path (fun _ e => e) env e w)
      as (calls & _ & [H|[H|[H|(rid & H)]]]).
    - exists []. rewrite app_nil_r. tauto.
    - exists []. rewrite app_nil_r. tauto.
    - exists []. rewrite app_nil_r. tauto.
    - eexists. destruct H as (_ & _ & Hr & _). exact Hr. }
  split.
  - intros e w. rewrite processEvent_outcome. apply Hone.
  - intros evs w.
    rewrite batchProcessEvents_outcome, batchProcessEventsWith_run.
    cbn [snd].
    destruct (after_keeps_guild (fun _ e => e) env evs w) as (Hm & He & Hq).
    repeat (split; [assumption|]).
    clear Hm He Hq. revert w.
    induction evs as [|[key e] rest IH]; intros w.
    + exists []. rewrite app_nil_r. reflexivity.
    + cbn [after]. unfold turn.
      destruct (processOutcome_ok (fun _ e => e) env e w) as (r & w1 & Hrun).
      destruct (Hone e w) as (_ & _ & _ & added1 & H1).
      rewrite Hrun in *. cbn [snd] in *.
      destruct (IH w1) as (added2 & H2).
      exists (added1 ++ added2). rewrite H2, H1, app_assoc. reflexivity.
Qed.

(** ** The lookups *)

(** X4. [getEventRoleId] and [getEventRole] only read: whatever the
    environment does, they leave the store, the roles, the members, the
    events and the queue as they were.  [getEventRoleId] returns null for
    an event without record and for a record whose role identifier is the
    empty string.  [getEventRole] makes no call for an event without guild,
    and asks the guild for no role when the store has no identifier. *)
Theorem lookups_only_read env :
  (forall k w,
     let w' := snd (ScheduleEventsService.getEventRoleId env k w) in
     sameGuild w w' /\ queue w' = queue w
     /\ trace w' = trace w ++ [CallFindScheduledEvent k])
  /\ (forall e w,
        let w' := snd (ScheduleEventsService.getEventRole env e w) in
        sameGuild w w' /\ queue w' = queue w)
  /\ (forall k w,
        findRejects env (length (trace w)) k = false ->
        db w !! k = None \/ db w !! k = Some ""%string ->
        fst (ScheduleEventsService.getEventRoleId env k w) = Ok None)
  /\ (forall e w,
        guild e = None ->
        ScheduleEventsService.getEventRole env e w = (Ok None, w))
  /\ (forall e g w,
        guild e = Some g ->
        findRejects env (length (trace w)) (id e) = false ->
        storedRoleId w (id e) = None ->
        ScheduleEventsService.getEventRole env e w
        = (Ok None, called (CallFindScheduledEvent (id e)) w)).
Proof.
  repeat apply conj.
  - intros k w. rewrite getEventRoleId_run.
    destruct (findRejects env (length (trace w)) k); cbn;
      repeat split; reflexivity.
  - intros e w. rewrite getEventRole_run.
    destruct (guild e); [|cbn; repeat split; reflexivity]. cbv zeta.
    destruct (findRejects env (length (trace w)) (id e));
      [cbn; repeat split; reflexivity|].
    destruct (storedRoleId w (id e)) as [rid|];
      [|cbn; repeat split; reflexivity].
    destruct (rolesFetchRejects env (S (length (trace w))) rid);
      cbn; repeat split; reflexivity.
  - intros k w Hf Hk. rewrite getEventRoleId_run, Hf. unfold storedRoleId.
    destruct Hk as [-> | ->]; reflexivity.
  - intros e w Hg. rewrite getEventRole_run, Hg. reflexivity.
  - intros e g w Hg Hf Hs. rewrite getEventRole_run, Hg. cbv zeta.
    rewrite Hf, Hs. reflexivity.
Qed.

(** An event that is not in the store has no role identifier, and asking
    for its role stops after the lookup. *)
Lemma lookups_only_read_witness :
  fst (ScheduleEventsService.getEventRoleId quietEnv "e9" recordedWorld)
    = Ok None
  /\ trace (snd (ScheduleEventsService.getEventRole quietEnv (standup 2)
                   recordedWorld))
     = [CallFindScheduledEvent "e1"].
Proof.
  destruct (lookups_only_read quietEnv) as (_ & _ & Hid & _ & Hrole).
  split.
  - apply Hid; [reflexivity | left; reflexivity].
  - rewrite (Hrole (standup 2) acm recordedWorld eq_refl eq_refl eq_refl).
    reflexivity.
Defined.




(** ** Batches *)

(** X6. Batches compose: the batch over [xs ++ ys] returns what the batch
    over [xs] returns followed by what the batch over [ys] returns in the
    world the first one left, and leaves the world of the second; the
    batch over nothing returns nothing and leaves the world as it is. *)
Theorem batches_compose env xs ys w :
  exists r1 w1 r2 w2,
    ScheduleEventsService.batchProcessEvents env xs w = (Ok r1, w1)
    /\ ScheduleEventsService.batchProcessEvents env ys w1 = (Ok r2, w2)
    /\ ScheduleEventsService.batchProcessEvents env (xs ++ ys) w
       = (Ok (r1 ++ r2), w2)
    /\ ScheduleEventsService.batchProcessEvents env [] w = (Ok [], w).
Proof.
  rewrite !batchProcessEvents_outcome, !batchProcessEventsWith_run.
  eexists _, _, _, _. split; [reflexivity|].
  rewrite !batchProcessEvents_outcome, !batchProcessEventsWith_run.
  split; [reflexivity|].
  rewrite pushed_app, after_app. split; reflexivity.
Qed.

Lemma after_roles env evs : forall w,
  exists added,
    roles (after (processOutcome (fun _ e => e) env) evs w)
    = roles w ++ added
    /\ length added <= length evs
    /\ Forall (ByPolicy env evs) added.
Proof.
  induction evs as [|[key e] rest IH]; intros w.
  - exists []. rewrite app_nil_r. cbn. auto.
  - cbn [after]. unfold turn.
    destruct (processOutcome_ok (fun _ e => e) env e w) as (r & w1 & Hrun).
    pose proof (processOutcome_path (fun _ e => e) env e w) as Hpath.
    rewrite Hrun in *. cbn [snd] in *.
    destruct Hpath as (calls & _ & Hpath).
    destruct (IH w1) as (added & Hroles & Hlen & Hpolicy).
    assert (Hrest : Forall (ByPolicy env ((key, e) :: rest)) added).
    { eapply Forall_impl; [exact Hpolicy|].
      intros role (Hm & Hp & key' & e' & Hin & Hn & Hr).
      split; [exact Hm|]. split; [exact Hp|].
      exists key', e'. split; [right; exact Hin|]. auto. }
    assert (Hcases : roles w1 = roles w
                     \/ exists rid,
                          roles w1 = roles w
                            ++ [newRole rid (roleName env e) (roleReason e)]).
    { destruct Hpath as [H|[H|[H|(rid & H)]]];
        [left; tauto | left; tauto | left; tauto |].
      right. exists rid. tauto. }
    destruct Hcases as [Hsame|(rid & Hnew)].
    + exists added. rewrite Hroles, Hsame. split; [reflexivity|].
      split; [cbn; lia | exact Hrest].
    + exists (newRole rid (roleName env e) (roleReason e) :: added).
      rewrite Hroles, Hnew, <- app_assoc. split; [reflexivity|].
      split; [cbn; lia|].
      constructor; [|exact Hrest].
      split; [reflexivity|]. split; [reflexivity|].
      exists key, e. split; [left|]. auto.
Qed.

(** X7. A batch adds at most one role per event, after the roles that
    were there; every role it adds is mentionable, has no permissions and
    carries the name and the reason that [createCustomRole] computes for
    one of the events of the batch. *)
Theorem batch_roles_by_policy env evs w :
  exists added,
    roles (snd (ScheduleEventsService.batchProcessEvents env evs w))
    = roles w ++ added
    /\ length added <= length evs
    /\ Forall (ByPolicy env evs) added.
Proof.
  rewrite batchProcessEvents_outcome, batchProcessEventsWith_run.
  apply after_roles.
Qed.

(** ** Records and roles *)

Lemma processOutcome_linked mark env e w :
  RecordsLinked w -> RecordsLinked (snd (processOutcome mark env e w)).
Proof.
  intros Hlinked.
  destruct (processOutcome_path mark env e w) as (calls & _ & Hpath).
  set (w' := snd (processOutcome mark env e w)) in *.
  assert (Hcases :
            (db w' = db w /\ exists added, roles w' = roles w ++ added)
            \/ exists rid,
                 db w' = <[id e := rid]> (db w)
                 /\ roles w' = roles w
                      ++ [newRole rid (roleName env e) (roleReason e)]).
  { destruct Hpath as [H|[H|[H|(rid & _ & _ & Hroles & Hdb)]]].
    - left. split; [tauto|]. exists []. rewrite app_nil_r. tauto.
    - left. split; [tauto|]. exists []. rewrite app_nil_r. tauto.
    - left. split; [tauto|]. exists []. rewrite app_nil_r. tauto.
    - destruct Hdb as [(Hsame & _)|(Hins & _)].
      + left. split; [exact Hsame|]. eexists. exact Hroles.
      + right. exists rid. auto. }
  intros k r Hk.
  destruct Hcases as [(Hdb & added & Hroles)|(rid & Hdb & Hroles)].
  - rewrite Hdb in Hk. destruct (Hlinked k r Hk) as (role & Hin & Hid).
    exists role. split; [|exact Hid]. rewrite Hroles.
    apply elem_of_app. left. exact Hin.
  - rewrite Hdb in Hk. rewrite Hroles.
    destruct (decide (id e = k)) as [<-|Hne].
    + rewrite lookup_insert_eq in Hk. inversion Hk; subst r.
      eexists. split; [apply elem_of_app; right; left|]. reflexivity.
    + rewrite lookup_insert_ne in Hk by exact Hne.
      destruct (Hlinked k r Hk) as (role & Hin & Hid).
      exists role. split; [|exact Hid]. apply elem_of_app. left. exact Hin.
Qed.

Lemma after_linked mark env evs : forall w,
  RecordsLinked w -> RecordsLinked (after (processOutcome mark env) evs w).
Proof.
  induction evs as [|[key e] rest IH]; intros w Hlinked; [exact Hlinked|].
  cbn [after]. apply IH. unfold turn.
  pose proof (processOutcome_linked mark env e w Hlinked) as Hstep.
  destruct (processOutcome_ok mark env e w) as (r & w1 & Hrun).
  rewrite Hrun in *. exact Hstep.
Qed.

Lemma sameGuild_linked w w' :
  sameGuild w w' -> RecordsLinked w -> RecordsLinked w'.
Proof.
  intros (Hdb & _ & Hroles & _) Hlinked k r Hk.
  rewrite Hdb in Hk. rewrite Hroles. exact (Hlinked k r Hk).
Qed.

(** The loops of the pass leave the guild and the store alone, whatever
    the environment does. *)
Ltac same_guild := unfold sameGuild; cbn; repeat split; reflexivity.

Ltac then_same IH := eapply sameGuild_trans; [|apply IH]; same_guild.

Lemma subscriberLoop_keeps env acmguild event roleId subs : forall w,
  sameGuild w
    (snd (OnClientReady.subscriberLoop env acmguild event roleId subs w)).
Proof.
  induction subs as [|[uid s] rest IH]; intros w; [same_guild|].
  cbn [OnClientReady.subscriberLoop].
  destruct (member s) as [m|].
  - unfold bind at 1. rewrite memberFetch_run. cbv zeta.
    destruct (memberFetchRejects env (length (trace w)) (memberUser m));
      [same_guild|].
    destruct (members w !! memberUser m) as [rs|]; [|same_guild].
    unfold bind at 1.
    destruct (OnClientReady.hasRole _ roleId).
    + unfold ret at 1. then_same IH.
    + unfold customRoleQueue.queueAssignment, modify. then_same IH.
  - unfold bind at 1, log, modify. then_same IH.
Qed.

Lemma eventLoop_keeps env acmguild processed : forall w,
  sameGuild w (snd (OnClientReady.eventLoop env acmguild processed w)).
Proof.
  induction processed as [|slot rest IH]; intros w; [same_guild|].
  cbn [OnClientReady.eventLoop].
  destruct slot as [event|].
  - unfold bind at 1. rewrite getEventRoleId_run.
    destruct (findRejects env (length (trace w)) (id event));
      [same_guild|].
    destruct (storedRoleId w (id event)) as [roleId|].
    + unfold bind at 1, discord.fetchSubscribers, bind at 1, call.
      destruct (subscribersRejects env _ (id event)); [same_guild|].
      unfold ret at 1. unfold bind at 1.
      match goal with
      | |- context [OnClientReady.subscriberLoop ?a ?b ?c ?d ?e ?f] =>
          pose proof (subscriberLoop_keeps a b c d e f) as Hsub;
          destruct (OnClientReady.subscriberLoop a b c d e f) as [[[]|err] w3]
      end; cbn [snd] in Hsub.
      * eapply sameGuild_trans; [|apply IH].
        eapply sameGuild_trans; [|exact Hsub]. same_guild.
      * eapply sameGuild_trans; [|exact Hsub]. same_guild.
    + unfold bind at 1, log, modify. then_same IH.
  - unfold bind at 1, log, modify. then_same IH.
Qed.

Lemma run_linked env w :
  RecordsLinked w -> RecordsLinked (snd (OnClientReady.run env w)).
Proof.
  intros Hlinked. unfold OnClientReady.run, discord.guildsFetchCall.
  unfold bind at 1, bind at 1, call.
  destruct (guildsFetch env (length (trace w))) as [g|]; [|exact Hlinked].
  unfold ret at 1. unfold bind at 1, discord.scheduledEventsFetch.
  unfold bind at 1, call. world_simpl.
  destruct (eventsFetchRejects env _); [exact Hlinked|].
  unfold bind at 1, get, ret at 1. cbn [events set_trace].
  unfold bind at 1.
  rewrite batchProcessEvents_outcome, batchProcessEventsWith_run.
  eapply sameGuild_linked; [apply eventLoop_keeps|].
  apply after_linked. exact Hlinked.
Qed.

Lemma perform_linked env op w :
  RecordsLinked w -> RecordsLinked (perform env op w).
Proof.
  intros Hlinked. destruct op as [e|e|evs|evs|k|e|]; cbn [perform].
  - rewrite processEvent_outcome. apply processOutcome_linked, Hlinked.
  - rewrite processEvent_embedding_outcome.
    apply processOutcome_linked, Hlinked.
  - rewrite batchProcessEvents_outcome, batchProcessEventsWith_run.
    apply after_linked, Hlinked.
  - rewrite batchProcessEvents_embedding_outcome, batchProcessEventsWith_run.
    apply after_linked, Hlinked.
  - rewrite getEventRoleId_run.
    destruct (findRejects env (length (trace w)) k); exact Hlinked.
  - rewrite getEventRole_run. destruct (guild e); [|exact Hlinked].
    cbv zeta.
    destruct (findRejects env (length (trace w)) (id e)); [exact Hlinked|].
    destruct (storedRoleId w (id e)) as [rid|]; [|exact Hlinked].
    destruct (rolesFetchRejects env (S (length (trace w))) rid);
      exact Hlinked.
  - apply run_linked, Hlinked.
Qed.

(** X8. No dangling record: when every record of the store names a role of
    the guild, this is still so after any sequence of operations of the
    service and of the pass, whatever fails on the way: a record is
    written only for a role that was created just before, and no
    operation removes a role. *)
Theorem records_stay_linked env ops w :
  RecordsLinked w -> RecordsLinked (performAll env ops w).
Proof.
  revert w. induction ops as [|op ops IH]; intros w Hlinked;
    [exact Hlinked|].
  cbn [performAll fold_left]. apply IH, perform_linked, Hlinked.
Qed.

(** From the guild with one recorded event, the pass and a batch over two
    events leave two records, each with its role. *)
Lemma records_stay_linked_witness :
  let w' := performAll quietEnv [Run; BatchProcessEvents twoEvents]
              startupWorld in
  RecordsLinked w'
  /\ db w' !! "e1" = Some "role-9"%string
  /\ db w' !! "e2" = Some "role-1"%string.
Proof.
  intros w'. split; [|split; vm_compute; reflexivity].
  apply records_stay_linked. intros k r Hk.
  exists gameNightRole. split; [left|].
  destruct (decide ("e2"%string = k)) as [<-|Hne].
  - vm_compute in Hk. inversion Hk. reflexivity.
  - unfold startupWorld in Hk. cbn [db] in Hk.
    rewrite lookup_insert_ne, lookup_empty in Hk by exact Hne. discriminate.
Defined.

(** ** A batch run again *)

Lemma writes_recorded mark env e w r :
  db w !! id e = Some r ->
  writes (snd (processOutcome mark env e w)) = writes w.
Proof.
  intros Hr.
  destruct (processOutcome_recorded mark env e w r Hr)
    as (_ & _ & _ & _ & Htrace).
  unfold writes. destruct Htrace as [-> | ->]; [reflexivity|].
  rewrite List.filter_app, length_app. cbn. lia.
Qed.

(** Over events that all have their record, the loop creates and writes
    nothing. *)
Lemma after_recorded mark env evs : forall w,
  (forall key e, (key, e) ∈ evs -> is_Some (db w !! id e)) ->
  let w' := after (processOutcome mark env) evs w in
  roles w' = roles w /\ db w' = db w /\ drains w' = drains w
  /\ creations w' = creations w /\ writes w' = writes w.
Proof.
  induction evs as [|[key e] rest IH]; intros w Hrec; [cbn; auto|].
  cbn [after]. cbv zeta.
  destruct (Hrec key e ltac:(left)) as [r Hr].
  destruct (processOutcome_recorded mark env e w r Hr)
    as (Hroles & Hdb & Hdrains & _).
  pose proof (processOutcome_recorded_creations mark env e w r Hr) as Hc.
  pose proof (writes_recorded mark env e w r Hr) as Hw.
  unfold turn.
  destruct (processOutcome_ok mark env e w) as (res & w1 & Hrun).
  rewrite Hrun in *. cbn [snd] in *.
  destruct (IH w1) as (A & B & C & D & E).
  { intros key' e' Hin. rewrite Hdb. apply (Hrec key' e'). right. exact Hin. }
  repeat split; congruence.
Qed.

(** When no slot is null, every event has a guild and, in the end, its
    record. *)
Lemma pushed_all_recorded mark env evs : forall w,
  None ∉ pushed (processOutcome mark env) evs w ->
  forall key e, (key, e) ∈ evs ->
    is_Some (guild e)
    /\ is_Some (db (after (processOutcome mark env) evs w) !! id e).
Proof.
  induction evs as [|[key0 e0] rest IH]; intros w Hnone key e Hin.
  - apply elem_of_nil in Hin. contradiction.
  - cbn [pushed after] in *. unfold turn in *.
    destruct (processOutcome mark env e0 w) as [[[e1|]|err] w1] eqn:Hrun;
      cbn [fst snd] in *.
    + apply not_elem_of_cons in Hnone as [_ Hrest].
      apply elem_of_cons in Hin as [Heq|Hin].
      * inversion Heq; subst key0 e0.
        destruct (processOutcome_success _ _ _ _ _ _ Hrun) as (rid & _ & Hdb).
        split.
        { unfold processOutcome in Hrun.
          destruct (guild e); [eauto|discriminate]. }
        exists rid. apply after_keeps_record. exact Hdb.
      * apply (IH w1 Hrest key e Hin).
    + exfalso. apply Hnone. left.
    + exfalso. apply Hnone. left.
Qed.

(** Over events that have a guild and a record, with a store that answers,
    every slot holds its event. *)
Lemma pushed_recorded env evs : forall w,
  (forall n k, findRejects env n k = false) ->
  (forall key e, (key, e) ∈ evs ->
     is_Some (guild e) /\ is_Some (db w !! id e)) ->
  pushed (processOutcome (fun _ e => e) env) evs w
  = map (fun keyed => Some (snd keyed)) evs.
Proof.
  induction evs as [|[key e] rest IH]; intros w Hf Hrec; [reflexivity|].
  cbn [pushed map snd]. unfold turn.
  destruct (Hrec key e ltac:(left)) as ([g Hg] & [r Hr]).
  rewrite (processOutcome_found _ env e g r w Hg Hr (Hf _ _)).
  cbn [fst snd]. f_equal. apply IH; [exact Hf|].
  intros key' e' Hin. cbn [db logged called set_logs set_trace].
  apply (Hrec key' e'). right. exact Hin.
Qed.

(** X9. A batch that returned no null can be run again at no cost: the
    second run over the same events creates no role, writes nothing and
    sends no signal, whatever the environment does; and when the store
    answers, it returns every event again. *)
Theorem second_batch_is_idle env evs w result w1 :
  ScheduleEventsService.batchProcessEvents env evs w = (Ok result, w1) ->
  None ∉ result ->
  let w2 := snd (ScheduleEventsService.batchProcessEvents env evs w1) in
  roles w2 = roles w1 /\ db w2 = db w1 /\ drains w2 = drains w1
  /\ creations w2 = creations w1 /\ writes w2 = writes w1
  /\ ((forall n k, findRejects env n k = false) ->
      fst (ScheduleEventsService.batchProcessEvents env evs w1)
      = Ok (map (fun keyed => Some (snd keyed)) evs)).
Proof.
  rewrite !batchProcessEvents_outcome, !batchProcessEventsWith_run.
  intros Hrun Hnone. inversion Hrun; subst result w1. cbn [fst snd].
  pose proof (pushed_all_recorded _ env evs w Hnone) as Hrec.
  destruct (after_recorded (fun _ e => e) env evs
              (after (processOutcome (fun _ e => e) env) evs w))
    as (A & B & C & D & E).
  { intros key e Hin. apply (Hrec key e Hin). }
  repeat (split; [assumption|]).
  intros Hf. f_equal. apply pushed_recorded; assumption.
Qed.

(** The batch over two events of an empty guild creates two roles; run
    again, it creates none and returns both events. *)
Lemma second_batch_is_idle_witness :
  let w1 := snd (ScheduleEventsService.batchProcessEvents quietEnv twoEvents
                   emptyWorld) in
  creations w1 = 2
  /\ creations (snd (ScheduleEventsService.batchProcessEvents quietEnv
                       twoEvents w1)) = 2
  /\ fst (ScheduleEventsService.batchProcessEvents quietEnv twoEvents w1)
     = Ok [Some (standup 2); Some (boardGameNight None)].
Proof.
  intros w1.
  destruct (second_batch_is_idle quietEnv twoEvents emptyWorld
              [Some (standup 2); Some (boardGameNight None)] w1)
    as (_ & _ & _ & Hcreations & _ & Hreturn).
  { vm_compute. reflexivity. }
  { intros Hin. repeat (apply elem_of_cons in Hin as [Hin|Hin];
                        [discriminate|]).
    apply elem_of_nil in Hin. exact Hin. }
  split; [vm_compute; reflexivity|].
  split; [rewrite Hcreations; vm_compute; reflexivity|].
  apply Hreturn. reflexivity.
Defined.

(** ** The pass under faults *)

(** What the loop over the subscribers may add to the queue. *)
Lemma subscriberLoop_queue env acmguild event roleId subs : forall w,
  exists added,
    queue (snd (OnClientReady.subscriberLoop env acmguild event roleId
                  subs w))
    = queue w ++ added
    /\ Forall (fun intent =>
                 fst intent = event
                 /\ exists entry m rs,
                      entry ∈ subs
                      /\ member (snd entry) = Some m
                      /\ memberUser m = snd intent
                      /\ members w !! snd intent = Some rs
                      /\ holds roleId rs = false) added.
Proof.
  induction subs as [|[uid s] rest IH]; intros w.
  - exists []. rewrite app_nil_r. split; [reflexivity | constructor].
  - assert (Hlift : forall w1 added,
              members w1 = members w ->
              Forall (fun intent =>
                        fst intent = event
                        /\ exists entry m rs,
                             entry ∈ rest
                             /\ member (snd entry) = Some m
                             /\ memberUser m = snd intent
                             /\ members w1 !! snd intent = Some rs
                             /\ holds roleId rs = false) added ->
              Forall (fun intent =>
                        fst intent = event
                        /\ exists entry m rs,
                             entry ∈ (uid, s) :: rest
                             /\ member (snd entry) = Some m
                             /\ memberUser m = snd intent
                             /\ members w !! snd intent = Some rs
                             /\ holds roleId rs = false) added).
    { intros w1 added Hm Hall. eapply Forall_impl; [exact Hall|].
      intros intent (He & entry & m & rs & Hin & H1 & H2 & H3 & H4).
      split; [exact He|]. exists entry, m, rs. rewrite <- Hm.
      split; [right; exact Hin|]. auto. }
    cbn [OnClientReady.subscriberLoop].
    destruct (member s) as [m|] eqn:Hmember.
    + unfold bind at 1. rewrite memberFetch_run. cbv zeta.
      destruct (memberFetchRejects env (length (trace w)) (memberUser m)).
      { exists []. rewrite app_nil_r. split; [reflexivity | constructor]. }
      destruct (members w !! memberUser m) as [rs|] eqn:Hrs.
      2:{ exists []. rewrite app_nil_r. split; [reflexivity | constructor]. }
      unfold bind at 1. unfold OnClientReady.hasRole.
      cbn [rolesCache memberUser].
      destruct (List.find _ rs) as [role|] eqn:Hfind.
      * unfold ret at 1.
        destruct (IH (called (CallMemberFetch (memberUser m)) w))
          as (added & Hq & Hall).
        exists added. split; [exact Hq|].
        apply (Hlift _ added eq_refl Hall).
      * apply find_holds in Hfind.
        unfold customRoleQueue.queueAssignment, modify.
        match goal with
        | |- context [OnClientReady.subscriberLoop _ _ _ _ rest ?w1] =>
            destruct (IH w1) as (added & Hq & Hall);
            pose proof (Hlift w1 added eq_refl Hall) as Hall'
        end.
        exists ((event, memberUser m) :: added). split.
        { rewrite Hq. cbn [queue set_queue]. rewrite <- app_assoc.
          reflexivity. }
        constructor; [|exact Hall'].
        split; [reflexivity|]. exists (uid, s), m, rs.
        split; [left|]. auto.
    + unfold bind at 1, log, modify.
      match goal with
      | |- context [OnClientReady.subscriberLoop _ _ _ _ rest ?w1] =>
          destruct (IH w1) as (added & Hq & Hall);
          pose proof (Hlift w1 added eq_refl Hall) as Hall'
      end.
      exists added. split; [exact Hq | exact Hall'].
Qed.

Lemma storedRoleId_sameGuild w w' k :
  sameGuild w w' -> storedRoleId w' k = storedRoleId w k.
Proof. intros (Hdb & _). unfold storedRoleId. rewrite Hdb. reflexivity. Qed.

Lemma OwedTo_sameGuild w w' slot processed intent :
  sameGuild w w' -> OwedTo w' processed intent ->
  OwedTo w (slot :: processed) intent.
Proof.
  intros Hsame (Hin & R & entry & m & rs & H1 & H2 & H3 & H4 & H5 & H6).
  split; [right; exact Hin|]. exists R, entry, m, rs.
  rewrite <- (storedRoleId_sameGuild w w' _ Hsame).
  destruct Hsame as (_ & Hm & _). rewrite <- Hm. auto 10.
Qed.

Lemma eventLoop_queue env acmguild processed : forall w,
  exists added,
    queue (snd (OnClientReady.eventLoop env acmguild processed w))
    = queue w ++ added
    /\ Forall (OwedTo w processed) added.
Proof.
  induction processed as [|slot rest IH]; intros w.
  - exists []. rewrite app_nil_r. split; [reflexivity | constructor].
  - assert (Hnext : forall w1,
              sameGuild w w1 -> queue w1 = queue w ->
              exists added,
                queue (snd (OnClientReady.eventLoop env acmguild rest w1))
                = queue w ++ added
                /\ Forall (OwedTo w (slot :: rest)) added).
    { intros w1 Hsame Hq. destruct (IH w1) as (added & Hq1 & Hall).
      exists added. rewrite Hq1, Hq. split; [reflexivity|].
      eapply Forall_impl; [exact Hall|]. intros intent.
      apply OwedTo_sameGuild, Hsame. }
    cbn [OnClientReady.eventLoop].
    destruct slot as [event|].
    + unfold bind at 1. rewrite getEventRoleId_run.
      destruct (findRejects env (length (trace w)) (id event)).
      { exists []. rewrite app_nil_r. split; [reflexivity | constructor]. }
      destruct (storedRoleId w (id event)) as [roleId|] eqn:Hstored.
      * unfold bind at 1, discord.fetchSubscribers, bind at 1, call.
        destruct (subscribersRejects env _ (id event)).
        { exists []. rewrite app_nil_r. split; [reflexivity | constructor]. }
        unfold ret at 1. unfold bind at 1.
        match goal with
        | |- context [OnClientReady.subscriberLoop ?a ?b ?c ?d ?e ?f] =>
            pose proof (subscriberLoop_keeps a b c d e f) as Hsub;
            destruct (subscriberLoop_queue a b c d e f)
              as (added1 & Hq1 & Hall1);
            destruct (OnClientReady.subscriberLoop a b c d e f)
              as [[[]|err] w3]
        end; cbn [snd] in Hsub, Hq1.
        -- destruct (IH w3) as (added2 & Hq2 & Hall2).
           exists (added1 ++ added2). split.
           { rewrite Hq2, Hq1. cbn [queue set_trace called].
             rewrite <- app_assoc. reflexivity. }
           apply Forall_app. split.
           ++ eapply Forall_impl; [exact Hall1|].
              intros intent (He & entry & m & rs & H1 & H2 & H3 & H4 & H5).
              split; [rewrite He; left|]. rewrite He.
              exists roleId, entry, m, rs. auto 10.
           ++ eapply Forall_impl; [exact Hall2|]. intros intent.
              apply OwedTo_sameGuild.
              eapply sameGuild_trans; [|exact Hsub]. same_guild.
        -- exists added1. split; [exact Hq1|].
           eapply Forall_impl; [exact Hall1|].
           intros intent (He & entry & m & rs & H1 & H2 & H3 & H4 & H5).
           split; [rewrite He; left|]. rewrite He.
           exists roleId, entry, m, rs. auto 10.
      * unfold bind at 1, log, modify.
        apply Hnext; [same_guild | reflexivity].
    + unfold bind at 1, log, modify.
      apply Hnext; [same_guild | reflexivity].
Qed.

(** The pass stops at a fetch that rejects, or goes through the batch and
    the loop over its output. *)
Lemma run_world env w :
  snd (OnClientReady.run env w) = called CallGuildsFetch w
  \/ snd (OnClientReady.run env w)
     = called CallScheduledEventsFetch (called CallGuildsFetch w)
  \/ exists g,
       let w0 := called CallScheduledEventsFetch (called CallGuildsFetch w) in
       let process := processOutcome (fun _ e => e) env in
       snd (OnClientReady.run env w)
       = snd (OnClientReady.eventLoop env g (pushed process (events w) w0)
                (after process (events w) w0)).
Proof.
  remember (OnClientReady.run env w) as r eqn:Hr.
  unfold OnClientReady.run, discord.guildsFetchCall in Hr.
  unfold bind at 1, bind at 1, call in Hr.
  destruct (guildsFetch env (length (trace w))) as [g|];
    [|left; rewrite Hr; reflexivity].
  unfold ret at 1 in Hr. unfold bind at 1, discord.scheduledEventsFetch in Hr.
  unfold bind at 1, call in Hr. world_simpl.
  cbn [trace set_trace] in Hr.
  destruct (eventsFetchRejects env _);
    [right; left; rewrite Hr; reflexivity|].
  unfold bind at 1, get, ret at 1 in Hr. cbn [events set_trace] in Hr.
  unfold bind at 1 in Hr.
  rewrite batchProcessEvents_outcome, batchProcessEventsWith_run in Hr.
  right; right. exists g. rewrite Hr. reflexivity.
Qed.

(** X10. The pass enqueues nothing but what the guild owes, whatever fails
    on the way: what was in the queue stays at its head, and every intent
    added is for an event of the guild whose role the store names and for
    the user of a subscriber's member for whom the guild does not hold
    that role.  No intent is ever enqueued for a member who holds the
    role. *)
Theorem pass_enqueues_only_owed env w :
  let w' := snd (OnClientReady.run env w) in
  exists added,
    queue w' = queue w ++ added /\ Forall (Owed w' (events w)) added.
Proof.
  intros w'. destruct (run_world env w) as [Hw|[Hw|(g & Hw)]]; fold w' in Hw.
  - exists []. rewrite app_nil_r, Hw. split; [reflexivity | constructor].
  - exists []. rewrite app_nil_r, Hw. split; [reflexivity | constructor].
  - cbv zeta in Hw.
    set (process := processOutcome (fun _ e => e) env) in *.
    set (w0 := called CallScheduledEventsFetch (called CallGuildsFetch w))
      in *.
    destruct (after_keeps_guild (fun _ e => e) env (events w) w0)
      as (Hmembers & _ & Hqueue).
    fold process in Hmembers, Hqueue.
    set (wb := after process (events w) w0) in *.
    destruct (eventLoop_queue env g (pushed process (events w) w0) wb)
      as (added & Hq & Hall).
    pose proof (eventLoop_keeps env g (pushed process (events w) w0) wb)
      as Hsame.
    rewrite <- Hw in Hq, Hsame.
    exists added. split; [rewrite Hq, Hqueue; reflexivity|].
    eapply Forall_impl; [exact Hall|].
    intros intent (Hin & R & entry & m & rs & H1 & H2 & H3 & H4 & H5 & H6).
    split; [exact (pushed_events env _ _ _ Hin)|].
    exists R, entry, m, rs.
    rewrite (storedRoleId_sameGuild wb w' _ Hsame).
    destruct Hsame as (_ & Hm & _). rewrite Hm. auto 10.
Qed.

Lemma bind_run {A B} (m : M A) (k : A -> M B) w :
  bind m k w = match m w with
               | (Ok a, w') => k a w'
               | (Thrown e, w') => (Thrown e, w')
               end.
Proof. reflexivity. Qed.

(** X11. The loop over the subscribers reads the member it fetches, never
    the member it was handed: two collections of subscribers whose
    members belong to the same users, in the same order, give the same
    result and the same world, whatever roles their cached members
    show. *)
Theorem subscriberLoop_ignores_cache env acmguild event roleId subs subs' :
  map memberUserOption subs = map memberUserOption subs' ->
  forall w,
    OnClientReady.subscriberLoop env acmguild event roleId subs w
    = OnClientReady.subscriberLoop env acmguild event roleId subs' w.
Proof.
  revert subs'. induction subs as [|[uid s] rest IH];
    intros [|[uid' s'] rest'] Hmap w; try discriminate; [reflexivity|].
  cbn [map] in Hmap. inversion Hmap as [[Hhead Hrest]].
  unfold memberUserOption in Hhead. cbn [snd] in Hhead.
  cbn [OnClientReady.subscriberLoop].
  destruct (member s) as [m|], (member s') as [m'|]; try discriminate.
  - inversion Hhead as [Huser].
    rewrite !bind_run, !memberFetch_run. cbv zeta. rewrite Huser.
    destruct (memberFetchRejects env (length (trace w)) (memberUser m'));
      [reflexivity|].
    destruct (members w !! memberUser m') as [rs|]; [|reflexivity].
    rewrite !bind_run. cbn [memberUser].
    destruct (OnClientReady.hasRole _ roleId).
    + unfold ret at 1 2. apply (IH rest' Hrest).
    + unfold customRoleQueue.queueAssignment, modify.
      apply (IH rest' Hrest).
  - rewrite !bind_run. unfold log, modify. apply (IH rest' Hrest).
Qed.

(** The subscribers of the game night with the caches emptied give the
    queue of the subscribers as they are. *)
Lemma subscriberLoop_ignores_cache_witness :
  let emptied :=
    [("u1", {| user := "u1";
               member := Some {| memberUser := "u1"; rolesCache := [] |} |});
     ("u2", {| user := "u2";
               member := Some {| memberUser := "u2"; rolesCache := [] |} |});
     ("u3", {| user := "u3";
               member := Some {| memberUser := "u3"; rolesCache := [] |} |})
    ]%string in
  queue (snd (OnClientReady.subscriberLoop quietEnv acm gameNight "role-1"
                emptied startupWorld))
  = [(gameNight, "u2"%string); (gameNight, "u3"%string)].
Proof.
  intros emptied.
  rewrite <- (subscriberLoop_ignores_cache quietEnv acm gameNight "role-1"
                (subscribers gameNight) emptied eq_refl startupWorld).
  vm_compute. reflexivity.
Defined.

(** X12. One member that cannot be fetched fails the loop: when the fetch
    always rejects for a user, or the user is no member of the guild any
    more, and a subscriber carries a member of that user, the loop over
    the subscribers throws the API error instead of skipping that
    subscriber. *)
Theorem unfetchable_member_fails_loop env acmguild event roleId subs u :
  Some u ∈ map memberUserOption subs ->
  forall w,
    Unfetchable env w u ->
    fst (OnClientReady.subscriberLoop env acmguild event roleId subs w)
    = Thrown ApiError.
Proof.
  induction subs as [|[uid s] rest IH]; intros Hin w Hu.
  - apply elem_of_nil in Hin. contradiction.
  - cbn [map] in Hin. unfold memberUserOption at 1 in Hin. cbn [snd] in Hin.
    cbn [OnClientReady.subscriberLoop].
    destruct (member s) as [m|].
    + unfold bind at 1. rewrite memberFetch_run. cbv zeta.
      destruct (memberFetchRejects env (length (trace w)) (memberUser m))
        eqn:Hrej; [reflexivity|].
      destruct (members w !! memberUser m) as [rs|] eqn:Hrs; [|reflexivity].
      assert (Hrest : Some u ∈ map memberUserOption rest).
      { apply elem_of_cons in Hin as [Heq|Hin]; [|exact Hin].
        inversion Heq; subst u. destruct Hu as [Hu|Hu].
        - rewrite Hu in Hrej. discriminate.
        - rewrite Hu in Hrs. discriminate. }
      unfold bind at 1.
      destruct (OnClientReady.hasRole _ roleId).
      * unfold ret at 1. apply (IH Hrest). exact Hu.
      * unfold customRoleQueue.queueAssignment, modify.
        apply (IH Hrest). exact Hu.
    + apply elem_of_cons in Hin as [Heq|Hin]; [discriminate|].
      unfold bind at 1, log, modify. apply (IH Hin). exact Hu.
Qed.

(** With Discord down no member can be fetched, and the loop over the
    subscribers of the game night throws. *)
Lemma unfetchable_member_fails_loop_witness :
  fst (OnClientReady.subscriberLoop discordDown acm gameNight "role-1"
         (subscribers gameNight) startupWorld)
  = Thrown ApiError.
Proof.
  apply (unfetchable_member_fails_loop discordDown acm gameNight "role-1"
           (subscribers gameNight) "u3").
  - vm_compute. right. right. left.
  - left. intros n. reflexivity.
Defined.

(** ** The role a lookup returns *)

(** X13. A role that [getEventRole] returns is a role of the guild, and
    its identifier is the one the store holds for the event: the lookup
    never returns the role of another record. *)
Theorem getEventRole_returns_linked_role env e w role w' :
  ScheduleEventsService.getEventRole env e w = (Ok (Some role), w') ->
  db w !! id e = Some (Role.id role)
  /\ role ∈ roles w
  /\ is_Some (guild e)
  /\ trace w' = trace w ++ [CallFindScheduledEvent (id e);
                            CallRolesFetch (Role.id role)].
Proof.
  rewrite getEventRole_run.
  destruct (guild e) as [g|]; [|discriminate]. cbv zeta.
  destruct (findRejects env (length (trace w)) (id e)); [discriminate|].
  unfold storedRoleId.
  destruct (db w !! id e) as [r|]; [|discriminate].
  destruct (String.eqb r ""); [discriminate|].
  destruct (rolesFetchRejects env (S (length (trace w))) r); [discriminate|].
  intros H. inversion H as [[Hfind Hw]]. clear H.
  apply List.find_some in Hfind as [Hin Hid].
  apply String.eqb_eq in Hid. subst r.
  split; [reflexivity|]. split; [apply list_elem_of_In, Hin|].
  split; [eauto|]. world_simpl. rewrite <- app_assoc. reflexivity.
Qed.

(** In the guild with one recorded event the lookup returns the role
    ["role-1"] of that event. *)
Lemma getEventRole_returns_linked_role_witness :
  exists w',
    ScheduleEventsService.getEventRole quietEnv gameNight startupWorld
    = (Ok (Some gameNightRole), w')
    /\ db startupWorld !! "e2" = Some "role-1"%string.
Proof.
  eexists. split; [vm_compute; reflexivity|].
  destruct (getEventRole_returns_linked_role quietEnv gameNight startupWorld
              gameNightRole
              (snd (ScheduleEventsService.getEventRole quietEnv gameNight
                      startupWorld)))
    as (Hdb & _).
  { vm_compute. reflexivity. }
  exact Hdb.
Defined.

(** ** Signals and records *)

Lemma processOutcome_balanced mark env e w :
  let w' := snd (processOutcome mark env e w) in
  drains w' + size (db w) = drains w + size (db w').
Proof.
  cbv zeta.
  destruct (processOutcome_path mark env e w) as (calls & _ & Hpath).
  destruct Hpath as [H|[H|[H|(rid & _ & Hnew & _ & Hdb)]]].
  - destruct H as (_ & _ & _ & -> & ->). reflexivity.
  - destruct H as (_ & _ & -> & ->). reflexivity.
  - destruct H as (_ & _ & _ & -> & ->). reflexivity.
  - destruct Hdb as [(-> & ->)|(-> & ->)]; [reflexivity|].
    rewrite (map_size_insert_None _ _ _ Hnew). lia.
Qed.

Lemma after_balanced mark env evs : forall w,
  let w' := after (processOutcome mark env) evs w in
  drains w' + size (db w) = drains w + size (db w').
Proof.
  induction evs as [|[key e] rest IH]; intros w; [reflexivity|].
  cbn [after]. cbv zeta. unfold turn.
  pose proof (processOutcome_balanced mark env e w) as Hstep.
  destruct (processOutcome_ok mark env e w) as (r & w1 & Hrun).
  rewrite Hrun in *. cbn [snd] in *. cbv zeta in Hstep.
  specialize (IH w1). cbv zeta in IH. lia.
Qed.

Lemma perform_balanced env op w :
  drains (perform env op w) + size (db w)
  = drains w + size (db (perform env op w)).
Proof.
  destruct op as [e|e|evs|evs|k|e|]; cbn [perform].
  - rewrite processEvent_outcome. apply processOutcome_balanced.
  - rewrite processEvent_embedding_outcome. apply processOutcome_balanced.
  - rewrite batchProcessEvents_outcome, batchProcessEventsWith_run.
    apply after_balanced.
  - rewrite batchProcessEvents_embedding_outcome, batchProcessEventsWith_run.
    apply after_balanced.
  - rewrite getEventRoleId_run.
    destruct (findRejects env (length (trace w)) k); reflexivity.
  - rewrite getEventRole_run. destruct (guild e); [|reflexivity].
    cbv zeta.
    destruct (findRejects env (length (trace w)) (id e)); [reflexivity|].
    destruct (storedRoleId w (id e)) as [rid|]; [|reflexivity].
    destruct (rolesFetchRejects env (S (length (trace w))) rid);
      reflexivity.
  - destruct (run_world env w) as [Hw|[Hw|(g & Hw)]]; rewrite Hw;
      [reflexivity | reflexivity |].
    match goal with
    | |- context [OnClientReady.eventLoop env g ?p ?wb] =>
        destruct (eventLoop_keeps env g p wb) as (Hdb & _ & _ & _ & Hdrains)
    end.
    rewrite Hdb, Hdrains.
    pose proof (after_balanced (fun _ e => e) env (events w)
                  (called CallScheduledEventsFetch
                     (called CallGuildsFetch w))) as H.
    exact H.
Qed.

(** X14. One signal per record: over any sequence of operations of the
    service and of the pass, whatever fails on the way, [processQueues]
    is called exactly as many times as records are added to the store. *)
Theorem one_signal_per_record env ops w :
  drains (performAll env ops w) + size (db w)
  = drains w + size (db (performAll env ops w)).
Proof.
  revert w. induction ops as [|op ops IH]; intros w; [reflexivity|].
  cbn [performAll fold_left].
  pose proof (perform_balanced env op w) as Hstep.
  specialize (IH (perform env op w)). unfold performAll in IH. lia.
Qed.
